(** * go-openai: the extension-preserving JSON codec (json.go, chat_stream.go)

    A shallow embedding of [RawExtensions], [UnmarshalWithExtensions],
    [getKnownFields], [MarshalWithExtensions] and the typed records that are
    wired through them, together with a model of the part of Go's
    [encoding/json] these functions call. *)

From Stdlib Require Import ZArith Ascii String List Lia DecimalN.
From stdpp Require Import gmap strings list fin_maps sorting.

Set Default Proof Using "Type".
Local Open Scope Z_scope.

(** ** Outcomes of Go calls

    A Go function of type [(T, error)] returns a value or an error. A call
    may also panic, as a write to a nil map does. *)

Inductive error :=
  | SyntaxError                             (* *json.SyntaxError *)
  | UnmarshalTypeError                      (* *json.UnmarshalTypeError *)
  | MarshalerError (cause : error)          (* *json.MarshalerError *)
  | UnsupportedValueError                   (* *json.UnsupportedValueError *)
  | ErrContentFieldsMisused
  | Errorf (msg : string) (cause : error).  (* fmt.Errorf(msg + ": %w", err) *)

Inductive result (A : Type) :=
  | Ok (a : A)
  | Err (e : error).
Arguments Ok {A} a.
Arguments Err {A} e.

Inductive call (A : Type) :=
  | Returns (a : A)
  | Panics (msg : string).
Arguments Returns {A} a.
Arguments Panics {A} msg.

Definition bytes := list Byte.byte.

(** ** JSON documents

    The syntax tree of a JSON text. Object members keep the order of the
    text, and may repeat a key.

    The fragment that is modelled: numbers are the integers (the parser
    refuses a number with a fraction or an exponent, and an escape of a code
    point above 127); the bytes of a string above 127 are copied as they are
    by the printer and by the parser, where encoding/json copies valid UTF-8
    only and replaces the rest by U+FFFD. The theorems below that depend on
    the text of a string are stated for ASCII strings. *)

Module Json.

Unset Elimination Schemes.
Inductive json :=
  | JNull
  | JBool (b : bool)
  | JNum (z : Z)
  | JStr (s : string)
  | JArr (l : list json)
  | JObj (m : list (string * json)).
Set Elimination Schemes.

Section json_ind.
Variable P : json → Prop.
Hypothesis Hnull : P JNull.
Hypothesis Hbool : ∀ b, P (JBool b).
Hypothesis Hnum : ∀ z, P (JNum z).
Hypothesis Hstr : ∀ s, P (JStr s).
Hypothesis Harr : ∀ l, Forall P l → P (JArr l).
Hypothesis Hobj : ∀ m, Forall (λ kv, P kv.2) m → P (JObj m).

Fixpoint json_ind (j : json) : P j :=
  match j with
  | JNull => Hnull
  | JBool b => Hbool b
  | JNum z => Hnum z
  | JStr s => Hstr s
  | JArr l =>
      Harr l ((fix go (l : list json) : Forall P l :=
                 match l with
                 | [] => Forall_nil_2 P
                 | x :: l' => Forall_cons_2 P x l' (json_ind x) (go l')
                 end) l)
  | JObj m =>
      Hobj m ((fix go (m : list (string * json)) : Forall (λ kv, P kv.2) m :=
                 match m with
                 | [] => Forall_nil_2 _
                 | kv :: m' => Forall_cons_2 _ kv m' (json_ind kv.2) (go m')
                 end) m)
  end.
End json_ind.

(** *** Printing, as [encoding/json] writes a document: compact, strings
    escaped with the HTML-safe table. *)

(* the quotation mark, byte 34 *)
Definition dquote : ascii := ascii_of_N 34.

Definition hex_digit (n : N) : ascii :=
  ascii_of_N (if (n <? 10)%N then 48 + n else 87 + n).

(* encodeState.string: the escape of one byte of a string *)
Definition escape_char (c : ascii) : list ascii :=
  let n := N_of_ascii c in
  if (n =? 34)%N then ["\"%char; dquote]
  else if (n =? 92)%N then ["\"; "\"]%char
  else if (n =? 8)%N then ["\"; "b"]%char
  else if (n =? 12)%N then ["\"; "f"]%char
  else if (n =? 10)%N then ["\"; "n"]%char
  else if (n =? 13)%N then ["\"; "r"]%char
  else if (n =? 9)%N then ["\"; "t"]%char
  else if ((n <? 32) || (n =? 60) || (n =? 62) || (n =? 38))%N
       then ["\"; "u"; "0"; "0"; hex_digit (n / 16); hex_digit (n mod 16)]%char
  else [c].

Definition print_string (s : string) : list ascii :=
  dquote :: flat_map escape_char (list_ascii_of_string s) ++ [dquote].

Definition digit_char (d : N) : ascii := ascii_of_N (48 + d).

Fixpoint print_uint (u : Decimal.uint) : list ascii :=
  match u with
  | Decimal.Nil => []
  | Decimal.D0 u => "0"%char :: print_uint u
  | Decimal.D1 u => "1"%char :: print_uint u
  | Decimal.D2 u => "2"%char :: print_uint u
  | Decimal.D3 u => "3"%char :: print_uint u
  | Decimal.D4 u => "4"%char :: print_uint u
  | Decimal.D5 u => "5"%char :: print_uint u
  | Decimal.D6 u => "6"%char :: print_uint u
  | Decimal.D7 u => "7"%char :: print_uint u
  | Decimal.D8 u => "8"%char :: print_uint u
  | Decimal.D9 u => "9"%char :: print_uint u
  end.

Definition print_number (z : Z) : list ascii :=
  match z with
  | Z0 => ["0"%char]
  | Zpos p => print_uint (N.to_uint (Npos p))
  | Zneg p => "-"%char :: print_uint (N.to_uint (Npos p))
  end.

Fixpoint print (j : json) : list ascii :=
  match j with
  | JNull => ["n"; "u"; "l"; "l"]%char
  | JBool true => ["t"; "r"; "u"; "e"]%char
  | JBool false => ["f"; "a"; "l"; "s"; "e"]%char
  | JNum z => print_number z
  | JStr s => print_string s
  | JArr l =>
      "["%char ::
      (fix elements (l : list json) : list ascii :=
         match l with
         | [] => ["]"%char]
         | [x] => print x ++ ["]"%char]
         | x :: l' => print x ++ ","%char :: elements l'
         end) l
  | JObj m =>
      "{"%char ::
      (fix members (m : list (string * json)) : list ascii :=
         match m with
         | [] => ["}"%char]
         | [(k, x)] => print_string k ++ ":"%char :: print x ++ ["}"%char]
         | (k, x) :: m' => print_string k ++ ":"%char :: print x ++ ","%char :: members m'
         end) m
  end.

(** *** Parsing: the scanner and decoder of [encoding/json] on the modelled
    fragment. White space is skipped between tokens. *)

Definition is_ws (c : ascii) : bool :=
  let n := N_of_ascii c in ((n =? 32) || (n =? 9) || (n =? 10) || (n =? 13))%N.

Fixpoint skip_ws (s : list ascii) : list ascii :=
  match s with
  | c :: s' => if is_ws c then skip_ws s' else s
  | [] => []
  end.

Definition hex_value (c : ascii) : option N :=
  let n := N_of_ascii c in
  if ((48 <=? n) && (n <=? 57))%N then Some (n - 48)%N
  else if ((97 <=? n) && (n <=? 102))%N then Some (n - 87)%N
  else if ((65 <=? n) && (n <=? 70))%N then Some (n - 55)%N
  else None.

(* a u escape with four hex digits: only code points below 128 are inside
   the model *)
Definition parse_hex4 (a b c d : ascii) : option ascii :=
  match hex_value a, hex_value b, hex_value c, hex_value d with
  | Some x, Some y, Some z, Some w =>
      let n := (((x * 16 + y) * 16 + z) * 16 + w)%N in
      if (n <? 128)%N then Some (ascii_of_N n) else None
  | _, _, _, _ => None
  end.

Definition unescape (e : ascii) : option ascii :=
  let n := N_of_ascii e in
  if (n =? 34)%N then Some e                      (* quotation mark *)
  else if (n =? 92)%N then Some e                 (* reverse solidus *)
  else if (n =? 47)%N then Some e                 (* solidus *)
  else if (n =? 98)%N then Some (ascii_of_N 8)    (* b: backspace *)
  else if (n =? 102)%N then Some (ascii_of_N 12)  (* f: form feed *)
  else if (n =? 110)%N then Some (ascii_of_N 10)  (* n: line feed *)
  else if (n =? 114)%N then Some (ascii_of_N 13)  (* r: carriage return *)
  else if (n =? 116)%N then Some (ascii_of_N 9)   (* t: tab *)
  else None.

(* the text after an opening quote, up to and including the closing one *)
Fixpoint parse_string_body (s : list ascii) : option (list ascii * list ascii) :=
  match s with
  | [] => None
  | c :: s' =>
      if (N_of_ascii c =? 34)%N then Some ([], s')
      else if (N_of_ascii c =? 92)%N then
        match s' with
        | [] => None
        | e :: s'' =>
            if (N_of_ascii e =? 117)%N then
              match s'' with
              | h1 :: h2 :: h3 :: h4 :: s3 =>
                  match parse_hex4 h1 h2 h3 h4, parse_string_body s3 with
                  | Some x, Some (str, r) => Some (x :: str, r)
                  | _, _ => None
                  end
              | _ => None
              end
            else
              match unescape e, parse_string_body s'' with
              | Some x, Some (str, r) => Some (x :: str, r)
              | _, _ => None
              end
        end
      else if (N_of_ascii c <? 32)%N then None
      else
        match parse_string_body s' with
        | Some (str, r) => Some (c :: str, r)
        | None => None
        end
  end.

Definition parse_string (s : list ascii) : option (string * list ascii) :=
  match parse_string_body s with
  | Some (str, r) => Some (string_of_list_ascii str, r)
  | None => None
  end.

Definition cons_digit (d : N) (u : Decimal.uint) : Decimal.uint :=
  match d with
  | 0 => Decimal.D0 u | 1 => Decimal.D1 u | 2 => Decimal.D2 u
  | 3 => Decimal.D3 u | 4 => Decimal.D4 u | 5 => Decimal.D5 u
  | 6 => Decimal.D6 u | 7 => Decimal.D7 u | 8 => Decimal.D8 u
  | _ => Decimal.D9 u
  end%N.

Definition is_digit (c : ascii) : bool :=
  let n := N_of_ascii c in ((48 <=? n) && (n <=? 57))%N.

Fixpoint parse_digits (s : list ascii) : Decimal.uint * list ascii :=
  match s with
  | c :: s' =>
      if is_digit c then
        let '(u, r) := parse_digits s' in (cons_digit (N_of_ascii c - 48) u, r)
      else (Decimal.Nil, s)
  | [] => (Decimal.Nil, [])
  end.

(* a fraction or an exponent follows: outside the model *)
Definition number_continues (s : list ascii) : bool :=
  match s with
  | c :: _ => let n := N_of_ascii c in ((n =? 46) || (n =? 101) || (n =? 69))%N
  | [] => false
  end.

(* digits without a leading zero, at least one *)
Definition normal_uint (u : Decimal.uint) : bool :=
  Decimal.uint_beq u (N.to_uint (N.of_uint u)).

Definition parse_number (s : list ascii) : option (Z * list ascii) :=
  match s with
  | c :: s' =>
      if (N_of_ascii c =? 45)%N then
        let '(u, r) := parse_digits s' in
        match N.of_uint u with
        | Npos p => if normal_uint u && negb (number_continues r)
                    then Some (Zneg p, r) else None
        | N0 => None
        end
      else
        let '(u, r) := parse_digits s in
        if normal_uint u && negb (number_continues r)
        then Some (Z.of_N (N.of_uint u), r) else None
  | [] => None
  end.

Fixpoint parse_value (fuel : nat) (s : list ascii) : option (json * list ascii) :=
  match fuel with
  | O => None
  | S fuel' =>
      match skip_ws s with
      | [] => None
      | c :: r =>
          let n := N_of_ascii c in
          if (n =? 123)%N then
            match skip_ws r with
            | c' :: r' =>
                if (N_of_ascii c' =? 125)%N then Some (JObj [], r')
                else
                  match parse_members fuel' r with
                  | Some (m, r'') => Some (JObj m, r'')
                  | None => None
                  end
            | [] => None
            end
          else if (n =? 91)%N then
            match skip_ws r with
            | c' :: r' =>
                if (N_of_ascii c' =? 93)%N then Some (JArr [], r')
                else
                  match parse_elements fuel' r with
                  | Some (l, r'') => Some (JArr l, r'')
                  | None => None
                  end
            | [] => None
            end
          else if (n =? 34)%N then
            match parse_string r with
            | Some (str, r') => Some (JStr str, r')
            | None => None
            end
          else if (n =? 110)%N then
            match r with
            | "u" :: "l" :: "l" :: r' => Some (JNull, r')
            | _ => None
            end%char
          else if (n =? 116)%N then
            match r with
            | "r" :: "u" :: "e" :: r' => Some (JBool true, r')
            | _ => None
            end%char
          else if (n =? 102)%N then
            match r with
            | "a" :: "l" :: "s" :: "e" :: r' => Some (JBool false, r')
            | _ => None
            end%char
          else
            match parse_number (c :: r) with
            | Some (z, r') => Some (JNum z, r')
            | None => None
            end
      end
  end
with parse_elements (fuel : nat) (s : list ascii) : option (list json * list ascii) :=
  match fuel with
  | O => None
  | S fuel' =>
      match parse_value fuel' s with
      | Some (x, r) =>
          match skip_ws r with
          | c :: r' =>
              if (N_of_ascii c =? 44)%N then
                match parse_elements fuel' r' with
                | Some (l, r'') => Some (x :: l, r'')
                | None => None
                end
              else if (N_of_ascii c =? 93)%N then Some ([x], r')
              else None
          | [] => None
          end
      | None => None
      end
  end
with parse_members (fuel : nat) (s : list ascii) : option (list (string * json) * list ascii) :=
  match fuel with
  | O => None
  | S fuel' =>
      match skip_ws s with
      | q :: s1 =>
          if (N_of_ascii q =? 34)%N then
            match parse_string s1 with
            | Some (k, s2) =>
                match skip_ws s2 with
                | c :: s3 =>
                    if (N_of_ascii c =? 58)%N then
                      match parse_value fuel' s3 with
                      | Some (x, r) =>
                          match skip_ws r with
                          | d :: r' =>
                              if (N_of_ascii d =? 44)%N then
                                match parse_members fuel' r' with
                                | Some (m, r'') => Some ((k, x) :: m, r'')
                                | None => None
                                end
                              else if (N_of_ascii d =? 125)%N then Some ([(k, x)], r')
                              else None
                          | [] => None
                          end
                      | None => None
                      end
                    else None
                | [] => None
                end
            | None => None
            end
          else None
      | [] => None
      end
  end.

(* a whole document: one value, then nothing but white space *)
Definition parse (s : list ascii) : option json :=
  match parse_value (S (3 * length s)) s with
  | Some (j, r) => match skip_ws r with [] => Some j | _ => None end
  | None => None
  end.

(** *** The element and member loops of [print], and the measure that
    bounds the parser's fuel *)

Fixpoint print_elements (l : list json) : list ascii :=
  match l with
  | [] => ["]"%char]
  | [x] => print x ++ ["]"%char]
  | x :: l' => print x ++ ","%char :: print_elements l'
  end.

Fixpoint print_members (m : list (string * json)) : list ascii :=
  match m with
  | [] => ["}"%char]
  | [(k, x)] => print_string k ++ ":"%char :: print x ++ ["}"%char]
  | (k, x) :: m' => print_string k ++ ":"%char :: print x ++ ","%char :: print_members m'
  end.

Fixpoint jsize (j : json) : nat :=
  match j with
  | JArr l => S (S (list_sum (map (λ x, S (jsize x)) l)))
  | JObj m => S (S (list_sum (map (λ kv, S (jsize kv.2)) m)))
  | _ => 1
  end.

(* what may follow a value: not a digit, not a fraction, not an exponent *)
Definition delim (s : list ascii) : bool :=
  match s with
  | c :: _ => negb (is_digit c) && negb (number_continues s)
  | [] => true
  end.

(* a printed value starts with a character that is neither white space nor
   a closing bracket *)
Definition starts_value (s : list ascii) : bool :=
  match s with
  | c :: _ =>
      negb (is_ws c) && negb (N_of_ascii c =? 93)%N && negb (N_of_ascii c =? 125)%N
  | [] => false
  end.

Definition parses_back (j : json) : Prop :=
  ∀ fuel r, (jsize j ≤ fuel)%nat → delim r = true →
            parse_value fuel (print j ++ r) = Some (j, r).

(* a JSON text written with ' in place of the quotation mark *)
Definition text (s : string) : list ascii :=
  map (λ c, if (N_of_ascii c =? 39)%N then dquote else c) (list_ascii_of_string s).

End Json.


(** ** Go values seen through reflection

    The kinds of values the records of this package are made of, as
    [encoding/json] walks them: the type of a value, with the name and the
    [omitempty] option of each struct field taken from its tag. *)

Module GoValue.
Import Json.

Unset Elimination Schemes.
Inductive gtype :=
  | TString
  | TInt
  | TBool
  | TPtr (t : gtype)
  | TSlice (t : gtype)
  | TStruct (fs : list (string * bool * gtype)).

Inductive gval :=
  | VString (s : string)
  | VInt (z : Z)
  | VBool (b : bool)
  | VPtr (p : option gval)                   (* None: the nil pointer *)
  | VSlice (l : option (list gval))          (* None: the nil slice *)
  | VStruct (fs : list (string * bool * gval))
  (* a value of a type that has its own MarshalJSON: the value under it, and
     what the method returns *)
  | VMarshaler (under : gval) (r : result json).
Set Elimination Schemes.

(* encoding/json, isEmptyValue *)
Fixpoint isEmptyValue (v : gval) : bool :=
  match v with
  | VString s => bool_decide (String.length s = 0%nat)
  | VInt z => bool_decide (z = 0)
  | VBool b => negb b
  | VPtr None => true
  | VPtr (Some _) => false
  | VSlice None => true
  | VSlice (Some l) => bool_decide (length l = 0%nat)
  | VStruct _ => false
  | VMarshaler under _ => isEmptyValue under
  end.

Fixpoint encode (v : gval) : result json :=
  match v with
  | VString s => Ok (JStr s)
  | VInt z => Ok (JNum z)
  | VBool b => Ok (JBool b)
  | VPtr None => Ok JNull
  | VPtr (Some p) => encode p
  | VSlice None => Ok JNull
  | VSlice (Some l) =>
      match (fix elements (l : list gval) : result (list json) :=
               match l with
               | [] => Ok []
               | x :: l' =>
                   match encode x with
                   | Ok j => match elements l' with
                             | Ok js => Ok (j :: js)
                             | Err e => Err e
                             end
                   | Err e => Err e
                   end
               end) l with
      | Ok js => Ok (JArr js)
      | Err e => Err e
      end
  | VStruct fs =>
      (* the fields in the order of the declaration; an omitempty field
         with an empty value is left out *)
      match (fix fields (fs : list (string * bool * gval))
               : result (list (string * json)) :=
               match fs with
               | [] => Ok []
               | (name, omitempty, x) :: fs' =>
                   if omitempty && isEmptyValue x then fields fs'
                   else
                     match encode x with
                     | Ok j => match fields fs' with
                               | Ok js => Ok ((name, j) :: js)
                               | Err e => Err e
                               end
                     | Err e => Err e
                     end
               end) fs with
      | Ok m => Ok (JObj m)
      | Err e => Err e
      end
  | VMarshaler _ r =>
      match r with
      | Ok j => Ok j
      | Err e => Err (MarshalerError e)
      end
  end.

(* the inner loop of [encode] on the fields of a struct *)
Fixpoint encode_fields (fs : list (string * bool * gval)) : result (list (string * json)) :=
  match fs with
  | [] => Ok []
  | (name, omitempty, x) :: fs' =>
      if omitempty && isEmptyValue x then encode_fields fs'
      else
        match encode x with
        | Ok j => match encode_fields fs' with
                  | Ok js => Ok ((name, j) :: js)
                  | Err e => Err e
                  end
        | Err e => Err e
        end
  end.

Fixpoint zero (t : gtype) : gval :=
  match t with
  | TString => VString ""
  | TInt => VInt 0
  | TBool => VBool false
  | TPtr _ => VPtr None
  | TSlice _ => VSlice None
  | TStruct fs => VStruct (map (λ f, (f.1.1, f.1.2, zero f.2)) fs)
  end.

(* foldName: a key matches a field name when the two have the same folded
   form. An ASCII letter folds to its upper case; the two letters outside
   ASCII that fold to an ASCII letter do so too: U+017F (bytes 197 191) to S
   and U+212A (bytes 226 132 170) to K. Other letters outside ASCII are left
   as they are: the field names of this package are ASCII, and no other
   letter folds to an ASCII one. *)
Definition fold_char (c : ascii) : ascii :=
  let n := N_of_ascii c in
  if ((97 <=? n) && (n <=? 122))%N then ascii_of_N (n - 32) else c.

Fixpoint fold_bytes (s : list ascii) : list ascii :=
  match s with
  | [] => []
  | c :: s1 =>
      match s1 with
      | [] => [fold_char c]
      | c2 :: s2 =>
          if ((N_of_ascii c =? 197) && (N_of_ascii c2 =? 191))%N
          then "S"%char :: fold_bytes s2
          else
            match s2 with
            | [] => fold_char c :: fold_bytes s1
            | c3 :: s3 =>
                if ((N_of_ascii c =? 226) && (N_of_ascii c2 =? 132)
                    && (N_of_ascii c3 =? 170))%N
                then "K"%char :: fold_bytes s3
                else fold_char c :: fold_bytes s1
            end
      end
  end.

Definition foldName (s : string) : string :=
  string_of_list_ascii (fold_bytes (list_ascii_of_string s)).

(* the field a key of the document goes to: the one of that name, else the
   first one whose folded name is the folded key *)
Definition find_field {A} (k : string) (fts : list (string * bool * A)) : option nat :=
  match list_find (λ f, f.1.1 = k) fts with
  | Some (i, _) => Some i
  | None =>
      match list_find (λ f, foldName f.1.1 = foldName k) fts with
      | Some (i, _) => Some i
      | None => None
      end
  end.

Definition first_error (e1 e2 : option error) : option error :=
  match e1 with Some _ => e1 | None => e2 end.

Definition in_int64 (z : Z) : bool :=
  (- 2 ^ 63 <=? z) && (z <? 2 ^ 63).

(* decodeState.value: store the document [j] into the value [v] of type
   [ty]. A value of the wrong shape leaves its target as it is and is
   reported at the end (the first such error); the rest is still stored. *)
Fixpoint decode (j : json) : gtype → gval → gval * option error :=
  fix at_type (ty : gtype) (v : gval) {struct ty} : gval * option error :=
    match ty with
    | TPtr t =>
        match j with
        | JNull => (VPtr None, None)
        | _ =>
            let cur := match v with VPtr (Some p) => p | _ => zero t end in
            let '(p', e) := at_type t cur in (VPtr (Some p'), e)
        end
    | TString =>
        match j with
        | JNull => (v, None)
        | JStr s => (VString s, None)
        | _ => (v, Some UnmarshalTypeError)
        end
    | TInt =>
        match j with
        | JNull => (v, None)
        | JNum z => if in_int64 z then (VInt z, None)
                    else (v, Some UnmarshalTypeError)
        | _ => (v, Some UnmarshalTypeError)
        end
    | TBool =>
        match j with
        | JNull => (v, None)
        | JBool b => (VBool b, None)
        | _ => (v, Some UnmarshalTypeError)
        end
    | TSlice t =>
        match j with
        | JNull => (VSlice None, None)
        | JArr l =>
            let old := match v with VSlice (Some o) => o | _ => [] end in
            let '(vs, e) :=
              (fix elements (t : gtype) (old : list gval) (l : list json)
                   (i : nat) {struct l} : list gval * option error :=
                 match l with
                 | [] => ([], None)
                 | x :: l' =>
                     let '(y, e1) := decode x t (default (zero t) (old !! i)) in
                     let '(ys, e2) := elements t old l' (S i) in
                     (y :: ys, first_error e1 e2)
                 end) t old l 0%nat in
            (VSlice (Some vs), e)
        | _ => (v, Some UnmarshalTypeError)
        end
    | TStruct fts =>
        match j with
        | JNull => (v, None)
        | JObj m =>
            let cur := match v with VStruct fs => fs | _ => [] end in
            let '(fs', e) :=
              (fix members (fts : list (string * bool * gtype))
                   (m : list (string * json))
                   (cur : list (string * bool * gval)) (err : option error)
                   {struct m} : list (string * bool * gval) * option error :=
                 match m with
                 | [] => (cur, err)
                 | (k, x) :: m' =>
                     match find_field k fts with
                     | Some i =>
                         match fts !! i, cur !! i with
                         | Some (_, _, t), Some (name, o, fv) =>
                             let '(fv', e1) := decode x t fv in
                             members fts m' (<[i := (name, o, fv')]> cur)
                                     (first_error err e1)
                         | _, _ => members fts m' cur err
                         end
                     | None => members fts m' cur err
                     end
                 end) fts m cur None in
            (VStruct fs', e)
        | _ => (v, Some UnmarshalTypeError)
        end
    end.

(* the loops of [encode] and [decode], by name *)
Fixpoint encode_elements (l : list gval) : result (list json) :=
  match l with
  | [] => Ok []
  | x :: l' =>
      match encode x with
      | Ok j => match encode_elements l' with
                | Ok js => Ok (j :: js)
                | Err e => Err e
                end
      | Err e => Err e
      end
  end.

Fixpoint decode_elements (t : gtype) (old : list gval) (l : list json) (i : nat)
  : list gval * option error :=
  match l with
  | [] => ([], None)
  | x :: l' =>
      let '(y, e1) := decode x t (default (zero t) (old !! i)) in
      let '(ys, e2) := decode_elements t old l' (S i) in
      (y :: ys, first_error e1 e2)
  end.

Fixpoint decode_members (fts : list (string * bool * gtype))
    (m : list (string * json)) (cur : list (string * bool * gval))
    (err : option error) : list (string * bool * gval) * option error :=
  match m with
  | [] => (cur, err)
  | (k, x) :: m' =>
      match find_field k fts with
      | Some i =>
          match fts !! i, cur !! i with
          | Some (_, _, t), Some (name, o, fv) =>
              let '(fv', e1) := decode x t fv in
              decode_members fts m' (<[i := (name, o, fv')]> cur)
                             (first_error err e1)
          | _, _ => decode_members fts m' cur err
          end
      | None => decode_members fts m' cur err
      end
  end.

(* a type whose values may be written as null *)
Definition nullable (t : gtype) : bool :=
  match t with
  | TPtr _ | TSlice _ => true
  | _ => false
  end.

(* the integers a float64 holds exactly *)
Definition exact_float64 (z : Z) : Prop := - 2 ^ 53 ≤ z ≤ 2 ^ 53.

(* [v] is a value of type [t] that its JSON form determines: the field
   names of a struct differ; a pointer does not point to a pointer or a
   slice; an omitempty field with an empty value holds the zero value (not an
   empty slice that is not nil); an integer is one a float64 holds exactly,
   as the merge of MarshalWithExtensions takes the base fields through a
   map[string]interface{}. *)
Fixpoint canonical (v : gval) (t : gtype) : Prop :=
  match v, t with
  | VString _, TString => True
  | VInt z, TInt => exact_float64 z
  | VBool _, TBool => True
  | VPtr None, TPtr _ => True
  | VPtr (Some p), TPtr t => nullable t = false ∧ canonical p t
  | VSlice None, TSlice _ => True
  | VSlice (Some l), TSlice t =>
      (fix all (l : list gval) : Prop :=
         match l with
         | [] => True
         | x :: l' => canonical x t ∧ all l'
         end) l
  | VStruct fvs, TStruct fts =>
      NoDup fts.*1.*1
      ∧ (fix all (fvs : list (string * bool * gval))
             (fts : list (string * bool * gtype)) : Prop :=
           match fvs, fts with
           | [], [] => True
           | (n, o, x) :: fvs', (n', o', t) :: fts' =>
               n = n' ∧ o = o' ∧ canonical x t
               ∧ (o && isEmptyValue x = true → x = zero t)
               ∧ all fvs' fts'
           | _, _ => False
           end) fvs fts
  | _, _ => False
  end.

End GoValue.

Import Json GoValue.

(** ** Values held in an [interface{}]

    What [encoding/json] stores when it decodes into [interface{}]: nil, a
    bool, a float64, a string, a [[]interface{}] or a
    [map[string]interface{}]; and, besides these, any other Go value a caller
    puts there, as SetExtension allows: [AValue]. A float64 is one with an
    integer value, which the model follows as long as a float64 holds that
    integer exactly (up to 2^53 in absolute value). A Go map has no order and
    no repeated key. *)

Unset Elimination Schemes.
Inductive any :=
  | ANil
  | ABool (b : bool)
  | ANum (z : Z)
  | AStr (s : string)
  | AArr (l : list any)
  | AObj (m : gmap string any)
  | AValue (v : gval).
Set Elimination Schemes.

(* encoding/json writes the keys of a map in sorted order *)
Definition key_le {A} (x y : string * A) : Prop := String.leb x.1 y.1 = true.

Global Instance key_le_dec {A} (x y : string * A) : Decision (key_le x y).
Proof. unfold key_le. apply _. Defined.

Definition sort_keys {A} (l : list (string * A)) : list (string * A) :=
  merge_sort key_le l.

(* decoding an object into a map: members are stored one after the other, so
   the last of a repeated key stays *)
Definition object_to_map {A} (l : list (string * A)) : gmap string A :=
  fold_left (λ acc kv, <[kv.1 := kv.2]> acc) l ∅.

(* the encoder stops at the first value it cannot write *)
Fixpoint collect {A} (l : list (result A)) : result (list A) :=
  match l with
  | [] => Ok []
  | Err e :: _ => Err e
  | Ok x :: l' =>
      match collect l' with
      | Ok xs => Ok (x :: xs)
      | Err e => Err e
      end
  end.

Fixpoint collect_members {A} (l : list (string * result A))
  : result (list (string * A)) :=
  match l with
  | [] => Ok []
  | (_, Err e) :: _ => Err e
  | (k, Ok x) :: l' =>
      match collect_members l' with
      | Ok xs => Ok ((k, x) :: xs)
      | Err e => Err e
      end
  end.

(* json.Marshal on a value held in an interface{}: the document, or the
   error of the first value that cannot be written, the members of a map
   taken in the order of their keys *)
Fixpoint any_to_json (a : any) : result json :=
  match a with
  | ANil => Ok JNull
  | ABool b => Ok (JBool b)
  | ANum z => Ok (JNum z)
  | AStr s => Ok (JStr s)
  | AArr l =>
      match collect (map any_to_json l) with
      | Ok js => Ok (JArr js)
      | Err e => Err e
      end
  | AObj m =>
      match collect_members (sort_keys (map_to_list (any_to_json <$> m))) with
      | Ok es => Ok (JObj es)
      | Err e => Err e
      end
  | AValue v => encode v
  end.

Fixpoint json_to_any (j : json) : any :=
  match j with
  | JNull => ANil
  | JBool b => ABool b
  | JNum z => ANum z
  | JStr s => AStr s
  | JArr l => AArr (map json_to_any l)
  | JObj m => AObj (object_to_map (map (λ kv, (kv.1, json_to_any kv.2)) m))
  end.

Fixpoint any_size (a : any) : nat :=
  match a with
  | AArr l => S (list_sum (map any_size l))
  | AObj m => S (list_sum (map_to_list (any_size <$> m)).*2)
  | _ => 1%nat
  end.

(* a document as it is after a passage through map[string]interface{}:
   the members of an object sorted by key, the last of a repeated key kept *)
Definition normal (j : json) : json :=
  match any_to_json (json_to_any j) with
  | Ok j' => j'
  | Err _ => j
  end.

(* a string of ASCII bytes only *)
Definition ascii_string (s : string) : bool :=
  forallb (λ c, (N_of_ascii c <? 128)%N) (list_ascii_of_string s).

(* a value of one of the kinds json.Unmarshal stores in an interface{} *)
Fixpoint json_kind (a : any) : bool :=
  match a with
  | AArr l => forallb json_kind l
  | AObj m => forallb snd (map_to_list (json_kind <$> m))
  | AValue _ => false
  | _ => true
  end.

(* the same, with ASCII strings and keys only, and with numbers a float64
   holds exactly: the values the model follows byte for byte *)
Fixpoint plain (a : any) : bool :=
  match a with
  | ANil | ABool _ => true
  | ANum z => (- 2 ^ 53 <=? z) && (z <=? 2 ^ 53)
  | AStr s => ascii_string s
  | AArr l => forallb plain l
  | AObj m =>
      forallb (λ kv : string * bool, ascii_string kv.1 && kv.2)
              (map_to_list (plain <$> m))
  | AValue _ => false
  end.

(* a Go value made of ASCII strings, integers a float64 holds exactly, bools,
   pointers, slices and structs whose field names are ASCII and differ (two
   fields of one name are both left out by encoding/json): no value with a
   MarshalJSON of its own *)
Fixpoint plain_value (v : gval) : bool :=
  match v with
  | VString s => ascii_string s
  | VInt z => (- 2 ^ 53 <=? z) && (z <=? 2 ^ 53)
  | VBool _ => true
  | VPtr None => true
  | VPtr (Some p) => plain_value p
  | VSlice None => true
  | VSlice (Some l) => forallb plain_value l
  | VStruct fs =>
      bool_decide (NoDup fs.*1.*1)
      && forallb (λ f : string * bool * gval, ascii_string f.1.1 && plain_value f.2) fs
  | VMarshaler _ _ => false
  end.

(** ** The calls of json.go into [encoding/json]

    [json.Marshal] and [json.Unmarshal] are called on the target, of whatever
    type the caller passes, and on a [map[string]interface{}] variable. A
    target is a pointer: [json_Unmarshal] returns the target as the call
    leaves it, next to the error. A nil map is [None]. *)

Class JsonLib (T : Type) := {
  json_Marshal : T → result bytes;
  json_Unmarshal : bytes → T → T * option error;
  json_MarshalMap : option (gmap string any) → result bytes;
  json_UnmarshalMap : bytes → result (option (gmap string any));
}.

(** ** json.go *)

(* type RawExtensions struct *)
Record RawExtensions := {
  Extensions : option (gmap string any);
  RawData : bytes;
  ExtensionRawData : bytes;
}.

(* the zero value of the struct *)
Definition RawExtensions_zero : RawExtensions :=
  {| Extensions := None; RawData := []; ExtensionRawData := [] |}.

(* func (r *RawExtensions) SetExtension(key string, value interface{}) *)
Definition SetExtension (key : string) (value : any) (r : RawExtensions)
  : RawExtensions :=
  let r :=
    match Extensions r with
    | None => {| Extensions := Some ∅; RawData := RawData r;
                 ExtensionRawData := ExtensionRawData r |}
    | Some _ => r
    end in
  {| Extensions := (λ m, <[key := value]> m) <$> Extensions r;
     RawData := RawData r;
     ExtensionRawData := ExtensionRawData r |}.

(* func (r *RawExtensions) GetExtension(key string) (interface{}, bool) *)
Definition GetExtension (key : string) (r : RawExtensions) : any * bool :=
  match Extensions r with
  | None => (ANil, false)
  | Some m =>
      match m !! key with
      | Some value => (value, true)
      | None => (ANil, false)
      end
  end.

(* func (r *RawExtensions) GetExtensions() *Extensions: the map, made if it
   was nil, and the store as the call leaves it *)
Definition GetExtensions (r : RawExtensions) : gmap string any * RawExtensions :=
  match Extensions r with
  | None => (∅, {| Extensions := Some ∅; RawData := RawData r;
                   ExtensionRawData := ExtensionRawData r |})
  | Some m => (m, r)
  end.

(* make([]byte, n) *)
Definition make (n : nat) : bytes := replicate n Byte.x00.

(* copy(dst, src): the first min(len(dst), len(src)) bytes of dst are
   overwritten *)
Definition copy (dst src : bytes) : bytes :=
  take (length dst) src ++ drop (length src) dst.

(* func (r *RawExtensions) SetRawData(data []byte) *)
Definition SetRawData (data : bytes) (r : RawExtensions) : RawExtensions :=
  {| Extensions := Extensions r;
     RawData := copy (make (length data)) data;
     ExtensionRawData := ExtensionRawData r |}.

(* func (r *RawExtensions) GetRawData() []byte *)
Definition GetRawData (r : RawExtensions) : bytes := RawData r.

(* func (r *RawExtensions) GetExtensionRawData() []byte *)
Definition GetExtensionRawData (r : RawExtensions) : bytes := ExtensionRawData r.

(* a store made from the zero value by calls of SetExtension *)
Definition set_all (sets : list (string * any)) (r : RawExtensions) : RawExtensions :=
  fold_left (λ r kv, SetExtension kv.1 kv.2 r) sets r.

(* knownFields[key] on a map[string]bool: false for a missing key *)
Definition known (knownFields : gmap string bool) (key : string) : bool :=
  default false (knownFields !! key).

(* for ... range over a map that may be nil *)
Definition range {A B} (f : string → A → B → B) (m : option (gmap string A)) (b : B) : B :=
  match m with
  | Some m => map_fold f b m
  | None => b
  end.

(* the fields of a map[string]interface{} variable, nil or not *)
Definition fields_of (m : option (gmap string any)) : gmap string any :=
  default ∅ m.

(* the extension fields UnmarshalWithExtensions computes *)
Definition extension_fields (knownFields : gmap string bool)
    (allFields : option (gmap string any)) : gmap string any :=
  range (λ key value (extensionFields : gmap string any),
           if negb (known knownFields key)
           then <[key := value]> extensionFields
           else extensionFields) allFields ∅.

Section json_go.
Context {T : Type} `{!JsonLib T}.

(* func getKnownFields(target interface{}) map[string]bool *)
Definition getKnownFields (target : T) : gmap string bool :=
  let knownFields : gmap string bool := ∅ in
  match json_Marshal target with
  | Err _ => knownFields
  | Ok targetBytes =>
      match json_UnmarshalMap targetBytes with
      | Err _ => knownFields
      | Ok targetMap =>
          range (λ key _ knownFields, <[key := true]> knownFields)
                targetMap knownFields
      end
  end.

(* func UnmarshalWithExtensions(data []byte, target interface{},
     extensions *RawExtensions) error:
   the target and the store as the call leaves them, and the error *)
Definition UnmarshalWithExtensions (data : bytes) (target : T)
    (extensions : RawExtensions) : T * RawExtensions * option error :=
  let extensions := SetRawData data extensions in
  let '(target, err) := json_Unmarshal data target in
  match err with
  | Some err =>
      (target, extensions, Some (Errorf "failed to unmarshal target" err))
  | None =>
      match json_UnmarshalMap data with
      | Err err =>
          (target, extensions, Some (Errorf "failed to unmarshal to map" err))
      | Ok allFields =>
          let knownFields := getKnownFields target in
          let extensionFields : gmap string any :=
            range (λ key value extensionFields,
                     if negb (known knownFields key)
                     then <[key := value]> extensionFields
                     else extensionFields)
                  allFields ∅ in
          let extensions :=
            if (0 <? size extensionFields)%nat then
              let extensions :=
                {| Extensions := Some extensionFields;
                   RawData := RawData extensions;
                   ExtensionRawData := ExtensionRawData extensions |} in
              match json_MarshalMap (Some extensionFields) with
              | Ok extensionData =>
                  {| Extensions := Extensions extensions;
                     RawData := RawData extensions;
                     ExtensionRawData := extensionData |}
              | Err _ => extensions
              end
            else extensions in
          (target, extensions, None)
      end
  end.

(* func MarshalWithExtensions(target interface{},
     extensions map[string]interface{}) ([]byte, error) *)
Definition MarshalWithExtensions (target : T)
    (extensions : option (gmap string any)) : call (result bytes) :=
  match json_Marshal target with
  | Err err => Returns (Err (Errorf "failed to marshal target" err))
  | Ok baseData =>
      if (size (default ∅ extensions) =? 0)%nat then Returns (Ok baseData)
      else
        match json_UnmarshalMap baseData with
        | Err err => Returns (Err (Errorf "failed to unmarshal base data" err))
        | Ok baseMap =>
            (* baseMap[key] = value, for each entry of extensions: the
               write panics when baseMap is nil *)
            match baseMap with
            | None => Panics "assignment to entry in nil map"
            | Some baseMap =>
                Returns (json_MarshalMap
                           (Some (range (λ key value baseMap,
                                           <[key := value]> baseMap)
                                        extensions baseMap)))
            end
        end
  end.

(* func UnmarshalJSON(data []byte, t ...any) error *)
Fixpoint UnmarshalJSON (data : bytes) (t : list T) : list T * option error :=
  match t with
  | [] => ([], None)
  | v :: t' =>
      let '(v, err) := json_Unmarshal data v in
      match err with
      | Some err => (v :: t', Some err)
      | None =>
          let '(t', err) := UnmarshalJSON data t' in (v :: t', err)
      end
  end.
(* json.Unmarshal alone on a target: the target after the call, and the
   error *)
Definition decoded (data : bytes) (v : T) : T := (json_Unmarshal data v).1.
Definition decode_error (data : bytes) (v : T) : option error :=
  (json_Unmarshal data v).2.
End json_go.

(** ** [encoding/json], on the Go values of [GoValue] *)

(* the map a printed object is decoded to *)
Definition decoded_object (m : list (string * json)) : gmap string any :=
  object_to_map (map (λ kv, (kv.1, json_to_any kv.2)) m).


Definition to_bytes (s : list ascii) : bytes := map byte_of_ascii s.
Definition of_bytes (b : bytes) : list ascii := map ascii_of_byte b.

(* a target: a pointer to a value of a known type *)
Record target := { target_type : GoValue.gtype; target_value : GoValue.gval }.

Definition Marshal (v : GoValue.gval) : result bytes :=
  match GoValue.encode v with
  | Ok j => Ok (to_bytes (print j))
  | Err e => Err e
  end.

Definition Unmarshal (data : bytes) (t : target) : target * option error :=
  match parse (of_bytes data) with
  | None => (t, Some SyntaxError)
  | Some j =>
      let '(v, e) := GoValue.decode j (target_type t) (target_value t) in
      ({| target_type := target_type t; target_value := v |}, e)
  end.

(* json.Marshal on a map[string]interface{}: a nil map is written as null *)
Definition MarshalMap (m : option (gmap string any)) : result bytes :=
  match m with
  | None => Ok (to_bytes (print JNull))
  | Some m =>
      match any_to_json (AObj m) with
      | Ok j => Ok (to_bytes (print j))
      | Err e => Err e
      end
  end.

(* into a nil map[string]interface{}: null leaves it nil *)
Definition UnmarshalMap (data : bytes) : result (option (gmap string any)) :=
  match parse (of_bytes data) with
  | None => Err SyntaxError
  | Some JNull => Ok None
  | Some (JObj m) =>
      Ok (Some (object_to_map (map (λ kv, (kv.1, json_to_any kv.2)) m)))
  | Some _ => Err UnmarshalTypeError
  end.

Global Instance GoJson : JsonLib target := {
  json_Marshal t := Marshal (target_value t);
  json_Unmarshal := Unmarshal;
  json_MarshalMap := MarshalMap;
  json_UnmarshalMap := UnmarshalMap;
}.

(** ** chat_stream.go *)

(* type ChatCompletionStreamChoiceDelta struct. The types FunctionCall and
   ToolCall are declared in another file of the package: their values are
   kept as Go values, of the types [FunctionCall_type] and [ToolCall_type]
   below. *)
Record ChatCompletionStreamChoiceDelta := {
  Content : string;
  ReasoningContent : string;
  Role : string;
  FunctionCall : option gval;          (* *FunctionCall *)
  ToolCalls : option (list gval);      (* []ToolCall *)
  Refusal : string;
  Delta_RawExtensions : RawExtensions;
}.

Section ChatCompletionStreamChoiceDelta.
Variables FunctionCall_type ToolCall_type : gtype.

(* the fields encoding/json sees in the struct: the embedded RawExtensions
   has the tag json:- on each of its fields *)
Definition Delta_type : gtype :=
  TStruct [("content"%string, true, TString);
           ("reasoning_content"%string, true, TString);
           ("role"%string, true, TString);
           ("function_call"%string, true, TPtr FunctionCall_type);
           ("tool_calls"%string, true, TSlice ToolCall_type);
           ("refusal"%string, true, TString)].

(* aux: the pointer r converted to a pointer to alias, the same struct
   without the methods of ChatCompletionStreamChoiceDelta *)
Definition Delta_alias (r : ChatCompletionStreamChoiceDelta) : target :=
  {| target_type := Delta_type;
     target_value :=
       VStruct [("content"%string, true, VString (Content r));
                ("reasoning_content"%string, true, VString (ReasoningContent r));
                ("role"%string, true, VString (Role r));
                ("function_call"%string, true, VPtr (FunctionCall r));
                ("tool_calls"%string, true, VSlice (ToolCalls r));
                ("refusal"%string, true, VString (Refusal r))] |}.

(* the struct behind the alias pointer, after a call has written to it *)
Definition Delta_of_alias (aux : target) (extensions : RawExtensions)
    (r : ChatCompletionStreamChoiceDelta) : ChatCompletionStreamChoiceDelta :=
  match target_value aux with
  | VStruct [(_, _, VString content); (_, _, VString reasoning_content);
             (_, _, VString role); (_, _, VPtr function_call);
             (_, _, VSlice tool_calls); (_, _, VString refusal)] =>
      {| Content := content; ReasoningContent := reasoning_content;
         Role := role; FunctionCall := function_call;
         ToolCalls := tool_calls; Refusal := refusal;
         Delta_RawExtensions := extensions |}
  | _ =>
      {| Content := Content r; ReasoningContent := ReasoningContent r;
         Role := Role r; FunctionCall := FunctionCall r;
         ToolCalls := ToolCalls r; Refusal := Refusal r;
         Delta_RawExtensions := extensions |}
  end.

(* func (r *ChatCompletionStreamChoiceDelta) UnmarshalJSON(data []byte) error *)
Definition Delta_UnmarshalJSON (data : bytes) (r : ChatCompletionStreamChoiceDelta)
  : ChatCompletionStreamChoiceDelta * option error :=
  let aux := Delta_alias r in
  let '(aux, extensions, err) :=
    UnmarshalWithExtensions data aux (Delta_RawExtensions r) in
  (Delta_of_alias aux extensions r, err).

(* func (r ChatCompletionStreamChoiceDelta) MarshalJSON() ([]byte, error):
   temp embeds the alias pointer and hides the RawExtensions field, so it
   has the fields of the alias *)
Definition Delta_MarshalJSON (r : ChatCompletionStreamChoiceDelta)
  : call (result bytes) :=
  let temp := Delta_alias r in
  MarshalWithExtensions temp (Extensions (Delta_RawExtensions r)).

(* var r ChatCompletionStreamChoiceDelta *)
Definition Delta_zero : ChatCompletionStreamChoiceDelta :=
  {| Content := ""; ReasoningContent := ""; Role := "";
     FunctionCall := None; ToolCalls := None; Refusal := "";
     Delta_RawExtensions := RawExtensions_zero |}.
End ChatCompletionStreamChoiceDelta.

(** ** Example values *)

(* FunctionCall, as the tests of the package fill it: a name and the
   arguments, both strings *)
Definition example_FunctionCall_type : gtype :=
  TStruct [("name"%string, true, TString); ("arguments"%string, true, TString)].

Definition example_ToolCall_type : gtype :=
  TStruct [("id"%string, true, TString); ("type"%string, false, TString);
           ("function"%string, false, example_FunctionCall_type)].

Definition example_Delta_alias := Delta_alias example_FunctionCall_type example_ToolCall_type.
Definition example_Delta_MarshalJSON :=
  Delta_MarshalJSON example_FunctionCall_type example_ToolCall_type.
Definition example_Delta_UnmarshalJSON :=
  Delta_UnmarshalJSON example_FunctionCall_type example_ToolCall_type.

(* a delta with a content and a role, and no extension *)
Definition delta_hi : ChatCompletionStreamChoiceDelta :=
  {| Content := "hi"; ReasoningContent := ""; Role := "user";
     FunctionCall := None; ToolCalls := None; Refusal := "";
     Delta_RawExtensions := RawExtensions_zero |}.

(* a delta with a role only *)
Definition delta_user : ChatCompletionStreamChoiceDelta :=
  {| Content := ""; ReasoningContent := ""; Role := "user";
     FunctionCall := None; ToolCalls := None; Refusal := "";
     Delta_RawExtensions := RawExtensions_zero |}.

(* the same, with a function call and a tool call *)
Definition delta_call : ChatCompletionStreamChoiceDelta :=
  {| Content := "hi"; ReasoningContent := ""; Role := "assistant";
     FunctionCall :=
       Some (VStruct [("name"%string, true, VString "f");
                      ("arguments"%string, true, VString "")]);
     ToolCalls :=
       Some [VStruct [("id"%string, true, VString "call_123");
                      ("type"%string, false, VString "function");
                      ("function"%string, false,
                       VStruct [("name"%string, true, VString "test_function");
                                ("arguments"%string, true, VString "{}")])]];
     Refusal := "";
     Delta_RawExtensions := RawExtensions_zero |}.

Definition with_extensions (r : ChatCompletionStreamChoiceDelta)
    (extensions : RawExtensions) : ChatCompletionStreamChoiceDelta :=
  {| Content := Content r; ReasoningContent := ReasoningContent r;
     Role := Role r; FunctionCall := FunctionCall r; ToolCalls := ToolCalls r;
     Refusal := Refusal r; Delta_RawExtensions := extensions |}.


(* a store that already holds an extension named role *)
Definition stale_store : RawExtensions :=
  SetExtension "role" (AStr "x") RawExtensions_zero.

(** ** The state of a struct while its members are decoded *)

(* the fields of a struct of type [fts] that is being filled with the values
   [fvs]: a field still has its zero value when its member is among [keys],
   the keys yet to come *)
Definition filled (fts : list (string * bool * gtype))
    (fvs : list (string * bool * gval)) (keys : list string)
  : list (string * bool * gval) :=
  zip_with (λ ft fv, (ft.1.1, ft.1.2,
                      if bool_decide (ft.1.1 ∈ keys) then zero ft.2 else fv.2))
           fts fvs.

(* the fields of [fvs] have the names, the options and the types of [fts];
   each is decoded from its written form, and is the zero value when it is
   left out *)
Definition field_decodes (fv : string * bool * gval) (ft : string * bool * gtype) : Prop :=
  fv.1 = ft.1
  ∧ (fv.1.2 && isEmptyValue fv.2 = true → fv.2 = zero ft.2)
  ∧ ∀ j, encode fv.2 = Ok j → decode (normal j) ft.2 (zero ft.2) = (fv.2, None).

(* the fields of the zero value of a struct type *)
Definition zero_fields (fts : list (string * bool * gtype)) : list (string * bool * gval) :=
  map (λ f, (f.1.1, f.1.2, zero f.2)) fts.

(* the fields of a struct type *)
Definition struct_fields (t : gtype) : list (string * bool * gtype) :=
  match t with
  | TStruct fts => fts
  | _ => []
  end.

(* the calls of the store test of the package *)
Definition test_sets : list (string * any) :=
  [("test_key"%string, AStr "test_value");
   ("another_key"%string, AValue (VInt 123))].

(* a struct with a field whose MarshalJSON fails *)
Definition unserializable_target : target :=
  {| target_type := TStruct [("a"%string, false, TString); ("b"%string, false, TString)];
     target_value :=
       VStruct [("a"%string, false, VString "");
                ("b"%string, false,
                 VMarshaler (VString "") (Err UnsupportedValueError))] |}.

(* a nil pointer to a delta, and a string, as targets *)
Definition nil_pointer_target : target :=
  {| target_type := TPtr (Delta_type example_FunctionCall_type example_ToolCall_type);
     target_value := VPtr None |}.

Definition string_target : target :=
  {| target_type := TString; target_value := VString "x" |}.

Definition example_Delta_fields : list (string * bool * gtype) :=
  struct_fields (Delta_type example_FunctionCall_type example_ToolCall_type).

Definition foo_bar : gmap string any := {[ "foo"%string := AStr "bar" ]}.

(* a value whose MarshalJSON returns an error *)
Definition failing_value : any :=
  AValue (VMarshaler (VString "") (Err UnsupportedValueError)).



(* the fields of a struct value *)
Definition struct_fields_of (v : gval) : list (string * bool * gval) :=
  match v with VStruct fvs => fvs | _ => [] end.

(* [field_decodes], for a struct that is not taken through a map: each field
   is decoded from its written form as it is *)
Definition field_decodes_plain (fv : string * bool * gval)
    (ft : string * bool * gtype) : Prop :=
  fv.1 = ft.1
  ∧ (fv.1.2 && isEmptyValue fv.2 = true → fv.2 = zero ft.2)
  ∧ ∀ j, encode fv.2 = Ok j → decode j ft.2 (zero ft.2) = (fv.2, None).

(** * Part II: theorems *)

(** ** The text codec: parsing a printed document gives the document back *)

Module JsonFacts.
Import Json.

Lemma print_arr l : print (JArr l) = "["%char :: print_elements l.
Proof. reflexivity. Qed.

Lemma print_obj m : print (JObj m) = "{"%char :: print_members m.
Proof. reflexivity. Qed.

Lemma parse_escape_char c r :
  parse_string_body (escape_char c ++ r) =
  match parse_string_body r with
  | Some (str, r') => Some (c :: str, r')
  | None => None
  end.
Proof. destruct c as [[] [] [] [] [] [] [] []]; reflexivity. Qed.

Lemma parse_string_body_print l r :
  parse_string_body (flat_map escape_char l ++ dquote :: r) = Some (l, r).
Proof.
  induction l as [|c l IH]; [reflexivity|].
  cbn [flat_map]. rewrite <- app_assoc, parse_escape_char, IH. reflexivity.
Qed.

Lemma parse_string_print k r :
  parse_string (flat_map escape_char (list_ascii_of_string k) ++ dquote :: r) = Some (k, r).
Proof.
  unfold parse_string. rewrite parse_string_body_print.
  by rewrite string_of_list_ascii_of_string.
Qed.

Lemma print_string_eq k r :
  print_string k ++ r =
  dquote :: flat_map escape_char (list_ascii_of_string k) ++ dquote :: r.
Proof. unfold print_string. cbn [app]. by rewrite <- app_assoc. Qed.

Lemma parse_digits_print u r :
  match r with c :: _ => is_digit c = false | [] => True end →
  parse_digits (print_uint u ++ r) = (u, r).
Proof.
  intros Hr. induction u; cbn [print_uint app];
    try (cbn [parse_digits]; cbn -[parse_digits] in *; rewrite IHu; reflexivity).
  destruct r as [|c r]; [reflexivity|]. cbn [parse_digits]. by rewrite Hr.
Qed.

Lemma uint_beq_refl u : Decimal.uint_beq u u = true.
Proof. by apply Decimal.internal_uint_dec_lb. Qed.

Lemma normal_to_uint n : normal_uint (N.to_uint n) = true.
Proof. unfold normal_uint. rewrite DecimalN.Unsigned.of_to. apply uint_beq_refl. Qed.

Lemma delim_digit r : delim r = true →
  match r with c :: _ => is_digit c = false | [] => True end.
Proof. destruct r; [done|]. cbn. intros [? ?]%andb_prop. by apply negb_true_iff. Qed.

Lemma delim_continues r : delim r = true → number_continues r = false.
Proof. destruct r; [done|]. intros [? ?]%andb_prop. by apply negb_true_iff. Qed.

Lemma print_uint_head p :
  ∃ c s, print_uint (Pos.to_uint p) = c :: s ∧ is_digit c = true.
Proof.
  pose proof (DecimalPos.Unsigned.to_uint_nonnil p) as Hn.
  destruct (Pos.to_uint p); [done|..]; cbn; eauto.
Qed.

Lemma parse_number_print z r :
  delim r = true → parse_number (print_number z ++ r) = Some (z, r).
Proof.
  intros Hr. pose proof (delim_digit _ Hr) as Hd.
  pose proof (delim_continues _ Hr) as Hc.
  destruct z as [|p|p]; unfold print_number.
  - cbn [app]. unfold parse_number.
    change (N_of_ascii "0" =? 45)%N with false. cbn match.
    change ("0"%char :: r) with (print_uint (Decimal.D0 Decimal.Nil) ++ r).
    rewrite parse_digits_print by done. by rewrite Hc.
  - destruct (print_uint_head p) as (c & s & Hp & Hdig).
    change (N.to_uint (N.pos p)) with (Pos.to_uint p).
    unfold parse_number. rewrite Hp. cbn [app].
    replace (N_of_ascii c =? 45)%N with false; last first.
    { destruct c as [[] [] [] [] [] [] [] []]; done. }
    change (c :: s ++ r) with ((c :: s) ++ r). rewrite <- Hp.
    rewrite parse_digits_print by done.
    change (Pos.to_uint p) with (N.to_uint (N.pos p)).
    rewrite normal_to_uint, Hc, DecimalN.Unsigned.of_to. reflexivity.
  - unfold parse_number. cbn [app].
    change (N_of_ascii "-" =? 45)%N with true. cbn match.
    rewrite parse_digits_print by done.
    rewrite DecimalN.Unsigned.of_to, normal_to_uint, Hc. reflexivity.
Qed.

Lemma starts_value_digit c s : is_digit c = true → starts_value (c :: s) = true.
Proof. destruct c as [[] [] [] [] [] [] [] []]; done. Qed.

Lemma print_starts j r : starts_value (print j ++ r) = true.
Proof.
  destruct j as [|[]|[|p|p]|s|l|m]; try reflexivity.
  - cbn [print print_number].
    destruct (print_uint_head p) as (c & s & Hp & Hdig).
    change (N.to_uint (N.pos p)) with (Pos.to_uint p). rewrite Hp.
    by apply starts_value_digit.
Qed.

Lemma starts_value_inv s :
  starts_value s = true →
  ∃ c r, s = c :: r ∧ skip_ws s = s ∧
         (N_of_ascii c =? 93)%N = false ∧ (N_of_ascii c =? 125)%N = false.
Proof.
  destruct s as [|c r]; [done|]. cbn.
  intros [[Hw H1]%andb_prop H2]%andb_prop.
  apply negb_true_iff in Hw, H1, H2. exists c, r. by rewrite Hw.
Qed.

Lemma skip_ws_delims c r :
  c = ","%char ∨ c = "]"%char ∨ c = "}"%char ∨ c = ":"%char →
  skip_ws (c :: r) = c :: r ∧ delim (c :: r) = true.
Proof. intros [->|[->|[->| ->]]]; done. Qed.

Lemma parse_value_number fuel c s :
  (is_digit c || (N_of_ascii c =? 45)%N) = true →
  parse_value (S fuel) (c :: s) =
  match parse_number (c :: s) with
  | Some (z, r') => Some (JNum z, r')
  | None => None
  end.
Proof. destruct c as [[] [] [] [] [] [] [] []]; intros ?; try done. Qed.

Lemma print_number_head z r :
  ∃ c s, print_number z ++ r = c :: s ∧
         (is_digit c || (N_of_ascii c =? 45)%N) = true.
Proof.
  destruct z as [|p|p]; cbn [print_number app]; [by eauto| |by eauto].
  destruct (print_uint_head p) as (c & s & Hp & Hdig).
  change (N.to_uint (N.pos p)) with (Pos.to_uint p). rewrite Hp.
  exists c, (s ++ r). by rewrite Hdig.
Qed.

Lemma parse_value_arr fuel r :
  parse_value (S fuel) ("["%char :: r) =
  match skip_ws r with
  | c' :: r' =>
      if (N_of_ascii c' =? 93)%N then Some (JArr [], r')
      else match parse_elements fuel r with
           | Some (l, r'') => Some (JArr l, r'')
           | None => None
           end
  | [] => None
  end.
Proof. reflexivity. Qed.

Lemma parse_value_obj fuel r :
  parse_value (S fuel) ("{"%char :: r) =
  match skip_ws r with
  | c' :: r' =>
      if (N_of_ascii c' =? 125)%N then Some (JObj [], r')
      else match parse_members fuel r with
           | Some (m, r'') => Some (JObj m, r'')
           | None => None
           end
  | [] => None
  end.
Proof. reflexivity. Qed.

Lemma parse_value_str fuel r :
  parse_value (S fuel) (dquote :: r) =
  match parse_string r with
  | Some (str, r') => Some (JStr str, r')
  | None => None
  end.
Proof. reflexivity. Qed.

Lemma parse_elements_step fuel s :
  parse_elements (S fuel) s =
  match parse_value fuel s with
  | Some (x, r) =>
      match skip_ws r with
      | c :: r' =>
          if (N_of_ascii c =? 44)%N then
            match parse_elements fuel r' with
            | Some (l, r'') => Some (x :: l, r'')
            | None => None
            end
          else if (N_of_ascii c =? 93)%N then Some ([x], r')
          else None
      | [] => None
      end
  | None => None
  end.
Proof. reflexivity. Qed.

Lemma parse_members_step fuel k s :
  parse_members (S fuel) (dquote :: flat_map escape_char (list_ascii_of_string k)
                            ++ dquote :: ":"%char :: s) =
  match parse_value fuel s with
  | Some (x, r) =>
      match skip_ws r with
      | d :: r' =>
          if (N_of_ascii d =? 44)%N then
            match parse_members fuel r' with
            | Some (m, r'') => Some ((k, x) :: m, r'')
            | None => None
            end
          else if (N_of_ascii d =? 125)%N then Some ([(k, x)], r')
          else None
      | [] => None
      end
  | None => None
  end.
Proof.
  cbn [parse_members]. change (skip_ws (dquote :: ?x)) with (dquote :: x).
  cbv beta iota. change (N_of_ascii dquote =? 34)%N with true. cbv iota.
  rewrite parse_string_print. reflexivity.
Qed.

Lemma parse_elements_print l :
  Forall parses_back l →
  ∀ fuel r, l ≠ [] → (list_sum (map (λ x, S (jsize x)) l) ≤ fuel)%nat →
            parse_elements fuel (print_elements l ++ r) = Some (l, r).
Proof.
  induction 1 as [|x l' Hx Hl' IHl]; intros fuel r Hne Hf; [done|].
  destruct fuel as [|fuel]; [cbn in Hf; lia|].
  cbn in Hf. rewrite parse_elements_step.
  destruct l' as [|y l''].
  - cbn [print_elements]. rewrite <- app_assoc. cbn [app].
    rewrite Hx by (done || lia). reflexivity.
  - change (print_elements (x :: y :: l''))
      with (print x ++ ","%char :: print_elements (y :: l'')).
    rewrite <- app_assoc. cbn [app].
    rewrite Hx by (done || lia).
    change (skip_ws (","%char :: ?s)) with (","%char :: s). cbv beta iota.
    change (N_of_ascii "," =? 44)%N with true. cbv iota.
    rewrite IHl by (done || (cbn in *; lia)). reflexivity.
Qed.

Lemma parse_members_print m :
  Forall (λ kv, parses_back kv.2) m →
  ∀ fuel r, m ≠ [] → (list_sum (map (λ kv, S (jsize kv.2)) m) ≤ fuel)%nat →
            parse_members fuel (print_members m ++ r) = Some (m, r).
Proof.
  induction 1 as [|[k x] m' Hx Hm' IHm]; intros fuel r Hne Hf; [done|].
  destruct fuel as [|fuel]; [cbn in Hf; lia|].
  cbn in Hf. cbn [snd] in Hx.
  destruct m' as [|[k' y] m''].
  - cbn [print_members]. rewrite print_string_eq. cbn [app].
    rewrite <- !app_assoc. cbn [app]. rewrite <- app_assoc. cbn [app].
    rewrite parse_members_step, Hx by (done || lia). reflexivity.
  - change (print_members ((k, x) :: (k', y) :: m''))
      with (print_string k ++ ":"%char :: print x ++ ","%char
              :: print_members ((k', y) :: m'')).
    rewrite print_string_eq. cbn [app].
    rewrite <- !app_assoc. cbn [app]. rewrite <- app_assoc. cbn [app].
    rewrite parse_members_step, Hx by (done || lia).
    change (skip_ws (","%char :: ?s)) with (","%char :: s). cbv beta iota.
    change (N_of_ascii "," =? 44)%N with true. cbv iota.
    rewrite IHm by (done || (cbn in *; lia)). reflexivity.
Qed.

Lemma parse_value_print j : parses_back j.
Proof.
  induction j as [|b|z|s|l IH|m IH] using json_ind; intros fuel r Hf Hr;
    (destruct fuel as [|fuel]; [cbn in Hf; lia|]).
  - reflexivity.
  - destruct b; reflexivity.
  - cbn [print].
    destruct (print_number_head z r) as (c & s & Hp & Hc).
    pose proof (parse_number_print z r Hr) as Hn. rewrite Hp in *.
    by rewrite parse_value_number, Hn.
  - cbn [print]. rewrite print_string_eq, parse_value_str.
    by rewrite parse_string_print.
  - rewrite print_arr. cbn [app]. rewrite parse_value_arr.
    destruct l as [|x l]; [reflexivity|].
    assert (starts_value (print_elements (x :: l) ++ r) = true) as Hs.
    { destruct l; cbn [print_elements]; rewrite <- app_assoc; apply print_starts. }
    destruct (starts_value_inv _ Hs) as (c & s & Hp & Hw & H93 & _).
    rewrite Hw. rewrite Hp at 1. rewrite H93.
    rewrite (parse_elements_print _ IH); [done|done|]. cbn in Hf. cbn. lia.
  - rewrite print_obj. cbn [app]. rewrite parse_value_obj.
    destruct m as [|kx m]; [reflexivity|].
    assert (starts_value (print_members (kx :: m) ++ r) = true) as Hs.
    { destruct kx, m as [|[]]; reflexivity. }
    destruct (starts_value_inv _ Hs) as (c & s & Hp & Hw & _ & H125).
    rewrite Hw. rewrite Hp at 1. rewrite H125.
    rewrite (parse_members_print _ IH); [done|done|]. cbn in Hf. cbn. lia.
Qed.

Lemma print_number_length z : (1 ≤ length (print_number z))%nat.
Proof.
  destruct (print_number_head z []) as (c & s & Hp & _).
  rewrite app_nil_r in Hp. rewrite Hp. cbn. lia.
Qed.

Lemma jsize_bound j : (jsize j ≤ 3 * length (print j))%nat.
Proof.
  induction j as [|b|z|s|l IH|m IH] using json_ind.
  - cbn. lia.
  - destruct b; cbn; lia.
  - pose proof (print_number_length z). cbn [jsize print]. lia.
  - cbn [jsize print]. unfold print_string. cbn [length]. lia.
  - rewrite print_arr. cbn [jsize length].
    assert (list_sum (map (λ x, S (jsize x)) l) ≤ 3 * length (print_elements l))%nat;
      [|lia].
    induction IH as [|x l' Hx _ IHl]; [cbn; lia|].
    destruct l' as [|y l''].
    + cbn [print_elements]. rewrite length_app. cbn. lia.
    + change (print_elements (x :: y :: l''))
        with (print x ++ ","%char :: print_elements (y :: l'')).
      rewrite length_app. cbn [length].
      remember (y :: l'') as l'. cbn [map]. change (list_sum (?a :: ?b)) with (a + list_sum b)%nat. lia.
  - rewrite print_obj. cbn [jsize length].
    assert (list_sum (map (λ kv, S (jsize kv.2)) m) ≤ 3 * length (print_members m))%nat;
      [|lia].
    induction IH as [|[k x] m' Hx _ IHm]; [cbn; lia|]. cbn [snd] in Hx.
    destruct m' as [|[k' y] m''].
    + cbn [print_members]. rewrite !length_app. cbn [length]. rewrite !length_app.
      cbn. lia.
    + change (print_members ((k, x) :: (k', y) :: m''))
        with (print_string k ++ ":"%char :: print x ++ ","%char
                :: print_members ((k', y) :: m'')).
      rewrite length_app. cbn [length]. rewrite length_app. cbn [length].
      remember ((k', y) :: m'') as m'. cbn [map snd].
      change (list_sum (?a :: ?b)) with (a + list_sum b)%nat. lia.
Qed.

(** Printing then parsing is the identity on documents. *)
Lemma parse_print j : parse (print j) = Some j.
Proof.
  unfold parse.
  pose proof (parse_value_print j (S (3 * length (print j))) []) as H.
  rewrite app_nil_r in H. rewrite H; [done| |done].
  pose proof (jsize_bound j). lia.
Qed.

End JsonFacts.

(** ** Values in an [interface{}]: induction, and the way through JSON *)

Lemma list_sum_elem (l : list nat) (n : nat) : n ∈ l → (n ≤ list_sum l)%nat.
Proof.
  induction 1 as [|? ? ? ? IH]; cbn; [lia|].
  change (foldr Init.Nat.add 0%nat l) with (list_sum l). lia.
Qed.

Lemma any_size_arr (l : list any) (x : any) :
  x ∈ l → (any_size x < any_size (AArr l))%nat.
Proof.
  intros Hx. cbn [any_size].
  assert (any_size x ∈ map any_size l) as H%list_sum_elem; [|lia].
  apply list_elem_of_fmap. eauto.
Qed.

Lemma any_size_obj (m : gmap string any) (k : string) (x : any) :
  m !! k = Some x → (any_size x < any_size (AObj m))%nat.
Proof.
  intros Hx. cbn [any_size].
  assert (any_size x ∈ (map_to_list (any_size <$> m)).*2) as H%list_sum_elem; [|lia].
  apply list_elem_of_fmap. exists (k, any_size x). split; [done|].
  apply elem_of_map_to_list. by rewrite lookup_fmap, Hx.
Qed.

Lemma any_ind (P : any → Prop) :
  P ANil → (∀ b, P (ABool b)) → (∀ z, P (ANum z)) → (∀ s, P (AStr s)) →
  (∀ l, Forall P l → P (AArr l)) →
  (∀ m, map_Forall (λ _, P) m → P (AObj m)) →
  (∀ v, P (AValue v)) →
  ∀ a, P a.
Proof.
  intros Hnil Hbool Hnum Hstr Harr Hobj Hval a.
  remember (any_size a) as n eqn:Hn. revert a Hn.
  induction (lt_wf n) as [n _ IH]. intros [| | | |l|m|v] ->; auto.
  - apply Harr, Forall_forall. intros x Hx.
    eapply IH; [|done]. by apply any_size_arr.
  - apply Hobj. intros k x Hx.
    eapply IH; [|done]. by eapply any_size_obj.
Qed.

Lemma object_to_map_acc {A} (l : list (string * A)) (acc : gmap string A) :
  fold_left (λ acc kv, <[kv.1 := kv.2]> acc) l acc = list_to_map (reverse l) ∪ acc.
Proof.
  revert acc. induction l as [|[k x] l IH]; intros acc; cbn [fold_left].
  - by rewrite reverse_nil, list_to_map_nil, (left_id_L ∅ (∪)).
  - rewrite IH, reverse_cons, list_to_map_app. cbn.
    by rewrite <- (assoc_L (∪)), insert_empty, <- insert_union_singleton_l.
Qed.

Lemma object_to_map_reverse {A} (l : list (string * A)) :
  object_to_map l = list_to_map (reverse l).
Proof. unfold object_to_map. by rewrite object_to_map_acc, (right_id_L ∅ (∪)). Qed.

(* without a repeated key, the order of the members does not matter *)
Lemma object_to_map_perm {A} (l l' : list (string * A)) :
  NoDup l'.*1 → l ≡ₚ l' → object_to_map l = list_to_map l'.
Proof.
  intros Hnd Hp. rewrite object_to_map_reverse.
  apply list_to_map_proper.
  - by rewrite reverse_Permutation, Hp.
  - by rewrite reverse_Permutation.
Qed.

Lemma object_to_map_sorted {A} (m : gmap string A) :
  object_to_map (sort_keys (map_to_list m)) = m.
Proof.
  rewrite (object_to_map_perm _ (map_to_list m)).
  - apply list_to_map_to_list.
  - apply NoDup_fst_map_to_list.
  - apply merge_sort_Permutation.
Qed.

Lemma dom_object_to_map {A} (l : list (string * A)) (k : string) :
  is_Some (object_to_map l !! k) ↔ k ∈ l.*1.
Proof.
  rewrite object_to_map_reverse, <- elem_of_dom, dom_list_to_map_L.
  rewrite elem_of_list_to_set, fmap_reverse. by rewrite elem_of_reverse.
Qed.

Lemma key_le_total {A} : Total (@key_le A).
Proof. intros x y. unfold key_le. apply leb_total. Qed.

(** *** What the encoder writes for a map *)

Lemma collect_Ok {A} (l : list (result A)) xs :
  collect l = Ok xs ↔ l = Ok <$> xs.
Proof.
  revert xs. induction l as [|[x|e] l IH]; intros xs; cbn [collect].
  - split; [by intros [= <-]|]. by destruct xs.
  - destruct (collect l) as [ys|e] eqn:E.
    + split.
      * intros [= <-]. cbn. f_equal. by apply IH.
      * destruct xs as [|y xs]; [done|]. intros [= -> H]. f_equal. f_equal.
        apply IH in H. congruence.
    + split; [done|]. destruct xs as [|y xs]; [done|]. intros [= -> H].
      apply IH in H. congruence.
  - split; [done|]. by destruct xs.
Qed.

Lemma collect_members_Ok {A} (l : list (string * result A)) es :
  collect_members l = Ok es ↔ l = (λ e, (e.1, Ok e.2)) <$> es.
Proof.
  revert es. induction l as [|[k [x|e]] l IH]; intros es; cbn [collect_members].
  - split; [by intros [= <-]|]. by destruct es.
  - destruct (collect_members l) as [ys|e] eqn:E.
    + split.
      * intros [= <-]. cbn. f_equal. by apply IH.
      * destruct es as [|[k' y] es]; [done|]. cbn. intros [= -> -> H].
        f_equal. f_equal. apply IH in H. congruence.
    + split; [done|]. destruct es as [|[k' y] es]; [done|]. cbn.
      intros [= -> -> H]. apply IH in H. congruence.
  - split; [done|]. by destruct es as [|[k' y] es].
Qed.

Lemma collect_members_total {A} (l : list (string * result A)) :
  Forall (λ kr, ∃ x, kr.2 = Ok x) l → ∃ es, collect_members l = Ok es.
Proof.
  induction 1 as [|[k r] l [x Hx] _ [es IH]]; [by eexists|].
  cbn in Hx. subst r. cbn [collect_members]. rewrite IH. by eexists.
Qed.

Lemma collect_total {A} (l : list (result A)) :
  Forall (λ r, ∃ x, r = Ok x) l → ∃ xs, collect l = Ok xs.
Proof.
  induction 1 as [|r l [x ->] _ [xs IH]]; [by eexists|].
  cbn [collect]. rewrite IH. by eexists.
Qed.

(* a list is sorted by key when a list with the same keys is *)
Lemma Sorted_key_le_values {A B} (g : string * A → string * B) (l : list (string * A)) :
  (∀ e, (g e).1 = e.1) → Sorted key_le (g <$> l) → Sorted key_le l.
Proof.
  intros Hg. induction l as [|e l IH]; [constructor|].
  rewrite fmap_cons. intros [Hs Hh]%Sorted_inv. constructor; [by apply IH|].
  destruct l as [|e' l]; constructor.
  apply HdRel_inv in Hh. unfold key_le in *. by rewrite !Hg in Hh.
Qed.

(* the members written for a map: sorted by key, one for each key, each the
   document of the value of that key *)
Lemma any_to_json_obj (m : gmap string any) j :
  any_to_json (AObj m) = Ok j →
  ∃ es, j = JObj es ∧ Sorted key_le es ∧ NoDup es.*1
        ∧ ∀ k x, (k, x) ∈ es ↔ ∃ a, m !! k = Some a ∧ any_to_json a = Ok x.
Proof.
  cbn [any_to_json].
  destruct (collect_members _) as [es|e] eqn:E; [|done]. intros [= <-].
  exists es. split; [done|]. apply collect_members_Ok in E.
  set (g := λ e : string * json, (e.1, @Ok json e.2)) in *.
  assert (sort_keys (map_to_list (any_to_json <$> m))
          ≡ₚ map_to_list (any_to_json <$> m)) as Hp by apply merge_sort_Permutation.
  split; [|split].
  - apply (Sorted_key_le_values g); [done|]. rewrite <- E.
    apply Sorted_merge_sort, key_le_total.
  - assert (es.*1 = (g <$> es).*1) as ->.
    { rewrite <- list_fmap_compose. by apply list_fmap_ext. }
    rewrite <- E, Hp. apply NoDup_fst_map_to_list.
  - intros k x. transitivity ((k, @Ok json x) ∈ g <$> es).
    + split.
      * intros H. apply list_elem_of_fmap. by exists (k, x).
      * intros ([k' x'] & [= -> ->] & H)%list_elem_of_fmap. done.
    + rewrite <- E, Hp, elem_of_map_to_list, lookup_fmap.
      destruct (m !! k) as [a|]; cbn.
      * split; [intros [= H]; eauto|]. by intros (a' & [= <-] & ->).
      * split; [done|]. by intros (a' & [=] & _).
Qed.

Lemma any_to_json_obj_ok (m : gmap string any) :
  (∀ k a, m !! k = Some a → ∃ x, any_to_json a = Ok x) →
  ∃ es, any_to_json (AObj m) = Ok (JObj es).
Proof.
  intros Hm. cbn [any_to_json].
  destruct (collect_members_total (sort_keys (map_to_list (any_to_json <$> m))))
    as [es ->]; [|by eexists].
  apply Forall_forall. intros [k r] Hkr.
  unfold sort_keys in Hkr. rewrite merge_sort_Permutation in Hkr.
  apply elem_of_map_to_list in Hkr. rewrite lookup_fmap in Hkr.
  destruct (m !! k) as [a|] eqn:Ha; [|done]. injection Hkr as <-.
  by eapply Hm.
Qed.

(* the first value that cannot be written makes the encoder fail *)
Lemma any_to_json_obj_err (m : gmap string any) :
  (∃ k a e, m !! k = Some a ∧ any_to_json a = Err e) →
  ∃ e, any_to_json (AObj m) = Err e.
Proof.
  intros (k & a & e & Ha & He). cbn [any_to_json].
  destruct (collect_members _) as [es|e'] eqn:E; [|by eexists].
  apply collect_members_Ok in E.
  assert ((k, @Err json e) ∈ sort_keys (map_to_list (any_to_json <$> m))) as Hk.
  { unfold sort_keys. rewrite merge_sort_Permutation.
    apply elem_of_map_to_list. by rewrite lookup_fmap, Ha; cbn; rewrite He. }
  rewrite E in Hk. by apply list_elem_of_fmap in Hk as ([k' x] & [=] & _).
Qed.

Lemma any_to_json_obj_keys (m : gmap string any) es :
  any_to_json (AObj m) = Ok (JObj es) → ∀ k, k ∈ es.*1 ↔ is_Some (m !! k).
Proof.
  intros Hes k.
  destruct (any_to_json_obj _ _ Hes) as (es' & [= <-] & _ & _ & Hin). split.
  - intros ([k' x] & -> & (a & Ha & _)%Hin)%list_elem_of_fmap. eauto.
  - intros [a Ha]. destruct (any_to_json a) as [x|e] eqn:Hx.
    + apply list_elem_of_fmap. exists (k, x). split; [done|]. apply Hin. eauto.
    + destruct (any_to_json_obj_err m) as [e' He']; [by eauto 10|]. congruence.
Qed.

(** *** The kinds of values a decoder stores *)

Lemma forallb_snd_map_to_list (m : gmap string bool) :
  forallb snd (map_to_list m) = true ↔ ∀ k b, m !! k = Some b → b = true.
Proof.
  rewrite forallb_forall. split.
  - intros H k b Hk. apply (H (k, b)). apply list_elem_of_In.
    by apply elem_of_map_to_list.
  - intros H [k b] Hin%list_elem_of_In%elem_of_map_to_list. by eapply H.
Qed.

Lemma json_kind_obj (m : gmap string any) :
  json_kind (AObj m) = true ↔ ∀ k a, m !! k = Some a → json_kind a = true.
Proof.
  cbn [json_kind]. rewrite forallb_snd_map_to_list. split.
  - intros H k a Ha. apply (H k). by rewrite lookup_fmap, Ha.
  - intros H k b. rewrite lookup_fmap.
    destruct (m !! k) as [a|] eqn:Ha; [|done]. intros [= <-]. by eapply H.
Qed.

Lemma json_kind_arr (l : list any) :
  json_kind (AArr l) = true ↔ Forall (λ a, json_kind a = true) l.
Proof.
  cbn [json_kind]. rewrite forallb_forall, Forall_forall.
  split; intros H x Hx; apply H; by apply list_elem_of_In.
Qed.

Lemma lookup_object_to_map_Some {A} (l : list (string * A)) k x :
  object_to_map l !! k = Some x → (k, x) ∈ l.
Proof.
  rewrite object_to_map_reverse. intros H%elem_of_list_to_map_2.
  by rewrite elem_of_reverse in H.
Qed.

(* what a decoder stores is of these kinds *)
Lemma json_kind_json_to_any j : json_kind (json_to_any j) = true.
Proof.
  induction j as [|b|z|s|l IH|m IH] using Json.json_ind; try done.
  - cbn [json_to_any]. apply json_kind_arr.
    change (map json_to_any l) with (json_to_any <$> l). by apply Forall_fmap.
  - cbn [json_to_any]. apply json_kind_obj. intros k a Ha.
    apply lookup_object_to_map_Some in Ha.
    change (map ?f m) with (f <$> m) in Ha.
    apply list_elem_of_fmap in Ha as ([k' x] & [= -> ->] & Hin).
    eapply Forall_forall in IH; [|done]. done.
Qed.

(** A value of these kinds is written, and is the same value when what is
    written is decoded. *)
Lemma json_to_any_to_json a :
  json_kind a = true → ∃ j, any_to_json a = Ok j ∧ json_to_any j = a.
Proof.
  induction a as [|b|z|s|l IH|m IH|v] using any_ind; intros Hk.
  - by exists JNull.
  - by exists (JBool b).
  - by exists (JNum z).
  - by exists (JStr s).
  - apply json_kind_arr in Hk. cbn [any_to_json].
    assert (∃ js, collect (map any_to_json l) = Ok js ∧ map json_to_any js = l)
      as (js & -> & Hjs).
    { induction IH as [|x l Hx _ IHl]; [by exists []|].
      apply Forall_cons in Hk as [Hkx Hk].
      destruct (Hx Hkx) as (j & Hj & Hj'). destruct (IHl Hk) as (js & Hjs & Hjs').
      exists (j :: js). cbn. by rewrite Hj, Hjs, Hj', Hjs'. }
    eexists. split; [done|]. cbn. by rewrite Hjs.
  - pose proof (proj1 (json_kind_obj m) Hk) as Hk'.
    destruct (any_to_json_obj_ok m) as [es Hes].
    { intros k a Ha. destruct (IH k a Ha (Hk' k a Ha)) as (j & Hj & _). eauto. }
    exists (JObj es). split; [done|].
    destruct (any_to_json_obj _ _ Hes) as (es' & [= <-] & _ & Hnd & Hin).
    cbn [json_to_any]. f_equal.
    set (g := λ kv : string * json, (kv.1, json_to_any kv.2)).
    change (map g es) with (g <$> es).
    assert ((g <$> es).*1 = es.*1) as Hfst.
    { rewrite <- list_fmap_compose. by apply list_fmap_ext. }
    rewrite (object_to_map_perm _ (g <$> es)); [|by rewrite Hfst|done].
    apply map_eq. intros k. apply option_eq. intros a.
    rewrite <- elem_of_list_to_map by (by rewrite Hfst). split.
    + intros ([k' x] & [= -> ->] & Hx)%list_elem_of_fmap. cbn.
      apply Hin in Hx as (a & Ha & Hx). cbn in *.
      destruct (IH k' a Ha (Hk' k' a Ha)) as (j & Hj & Hj'). congruence.
    + intros Ha. destruct (IH k a Ha (Hk' k a Ha)) as (j & Hj & Hj').
      apply list_elem_of_fmap. exists (k, j). split; [by unfold g; cbn; rewrite Hj'|].
      apply Hin. eauto.
  - done.
Qed.

Lemma any_to_json_json_to_any j : any_to_json (json_to_any j) = Ok (normal j).
Proof.
  destruct (json_to_any_to_json _ (json_kind_json_to_any j)) as (j' & Hj & _).
  unfold normal. by rewrite Hj.
Qed.

Lemma forallb_plain_map_to_list (m : gmap string bool) :
  forallb (λ kv : string * bool, ascii_string kv.1 && kv.2) (map_to_list m) = true
  ↔ ∀ k b, m !! k = Some b → ascii_string k = true ∧ b = true.
Proof.
  rewrite forallb_forall. split.
  - intros H k b Hk. apply andb_prop, (H (k, b)). apply list_elem_of_In.
    by apply elem_of_map_to_list.
  - intros H [k b] Hin%list_elem_of_In%elem_of_map_to_list.
    destruct (H _ _ Hin) as [Hk ->]. by apply andb_true_intro.
Qed.

Lemma plain_obj (m : gmap string any) :
  plain (AObj m) = true
  ↔ ∀ k a, m !! k = Some a → ascii_string k = true ∧ plain a = true.
Proof.
  cbn [plain]. rewrite forallb_plain_map_to_list. split.
  - intros H k a Ha. apply (H k). by rewrite lookup_fmap, Ha.
  - intros H k b. rewrite lookup_fmap.
    destruct (m !! k) as [a|] eqn:Ha; [|done]. intros [= <-]. by eapply H.
Qed.

(* the values the model follows byte for byte are of the kinds a decoder
   stores *)
Lemma plain_json_kind a : plain a = true → json_kind a = true.
Proof.
  induction a as [|b|z|s|l IH|m IH|v] using any_ind; intros Hp; try done.
  - cbn [plain] in Hp. apply json_kind_arr. rewrite forallb_forall in Hp.
    rewrite Forall_forall in IH. apply Forall_forall. intros x Hx.
    apply IH; [done|]. by apply Hp, list_elem_of_In.
  - apply json_kind_obj. intros k a Ha.
    apply (IH k a Ha). by eapply (proj1 (plain_obj m) Hp).
Qed.

(** ** json.go: the loops over maps *)

Lemma range_known_fields {A} (m : gmap string A) (k : string) :
  map_fold (λ key _ (knownFields : gmap string bool), <[key := true]> knownFields)
           ∅ m !! k
  = (λ _, true) <$> m !! k.
Proof.
  apply (map_fold_weak_ind
           (λ (r : gmap string bool) m, r !! k = (λ _, true) <$> m !! k)).
  - by rewrite !lookup_empty.
  - intros i x m' r Hi IH. destruct (decide (i = k)) as [->|Hne].
    + by rewrite !lookup_insert_eq.
    + by rewrite !lookup_insert_ne.
Qed.

Lemma range_split (knownFields : gmap string bool) (m : gmap string any) (k : string) :
  map_fold (λ key value (extensionFields : gmap string any),
              if negb (known knownFields key)
              then <[key := value]> extensionFields
              else extensionFields) ∅ m !! k
  = if known knownFields k then None else m !! k.
Proof.
  apply (map_fold_weak_ind
           (λ (r : gmap string any) m,
              r !! k = if known knownFields k then None else m !! k)).
  - rewrite lookup_empty. by destruct (known knownFields k).
  - intros i x m' r Hi IH. destruct (decide (i = k)) as [->|Hne].
    + destruct (known knownFields k) eqn:Hk; cbn.
      * done.
      * by rewrite !lookup_insert_eq.
    + rewrite (lookup_insert_ne m') by done.
      destruct (known knownFields i); cbn; [done|].
      by rewrite lookup_insert_ne.
Qed.

Lemma range_merge (extensions baseMap : gmap string any) :
  map_fold (λ key value baseMap, <[key := value]> baseMap) baseMap extensions
  = extensions ∪ baseMap.
Proof.
  apply (map_fold_weak_ind (λ r m, r = m ∪ baseMap)).
  - by rewrite (left_id_L ∅ (∪)).
  - intros i x m' r Hi ->. by rewrite insert_union_l.
Qed.

Lemma copy_make (data : bytes) : copy (make (length data)) data = data.
Proof.
  unfold copy, make. rewrite length_replicate, firstn_all.
  rewrite drop_ge by (by rewrite length_replicate). apply app_nil_r.
Qed.

(** ** json.go: the extension store *)

Lemma GetExtension_SetExtension_eq r k v :
  GetExtension k (SetExtension k v r) = (v, true).
Proof.
  unfold GetExtension, SetExtension.
  destruct (Extensions r) eqn:E; cbn; rewrite ?E; cbn; by rewrite lookup_insert_eq.
Qed.

Lemma GetExtension_SetExtension_ne r k k' v :
  k' ≠ k → GetExtension k' (SetExtension k v r) = GetExtension k' r.
Proof.
  intros Hne. unfold GetExtension, SetExtension.
  destruct (Extensions r) eqn:E; cbn; rewrite ?E; cbn;
    rewrite lookup_insert_ne by done; [done|].
  by rewrite lookup_empty.
Qed.

Lemma GetExtension_never_set sets r k :
  k ∉ sets.*1 → GetExtension k (set_all sets r) = GetExtension k r.
Proof.
  revert r. induction sets as [|[k' v] sets IH]; intros r Hk; [done|].
  cbn in Hk. apply not_elem_of_cons in Hk as [Hne Hk].
  cbn. rewrite IH by done. by apply GetExtension_SetExtension_ne.
Qed.

(** C10. A value stored with SetExtension is what GetExtension returns for
    that key, with exists = true; the store answers as before for every other
    key; and for a key that no SetExtension call has named, on a store that
    started as the zero value (its map nil), GetExtension returns
    exists = false. *)
Theorem C10_extension_store_coherence (r : RawExtensions) (k : string) (v : any) :
  GetExtension k (SetExtension k v r) = (v, true)
  ∧ (∀ k', k' ≠ k → GetExtension k' (SetExtension k v r) = GetExtension k' r)
  ∧ (Extensions r = None → GetExtension k r = (ANil, false))
  ∧ (∀ sets, k ∉ sets.*1 →
             GetExtension k (set_all sets RawExtensions_zero) = (ANil, false)).
Proof.
  split; [apply GetExtension_SetExtension_eq|].
  split; [intros; by apply GetExtension_SetExtension_ne|].
  split.
  - intros Hnil. unfold GetExtension. by rewrite Hnil.
  - intros sets Hk. by rewrite GetExtension_never_set.
Qed.

(** ** json.go: decoding and encoding with extensions, for any target type *)

Section json_go_facts.
Context {T : Type} `{!JsonLib T}.

Lemma extension_fields_lookup knownFields allFields k :
  extension_fields knownFields allFields !! k
  = if known knownFields k then None else fields_of allFields !! k.
Proof.
  unfold extension_fields, range, fields_of.
  destruct allFields as [m|]; cbn.
  - apply range_split.
  - rewrite lookup_empty. by destruct (known knownFields k).
Qed.

Lemma getKnownFields_spec (target : T) targetBytes targetMap k :
  json_Marshal target = Ok targetBytes →
  json_UnmarshalMap targetBytes = Ok targetMap →
  known (getKnownFields target) k = true ↔ is_Some (fields_of targetMap !! k).
Proof.
  intros Hm Hu. unfold getKnownFields, known, range, fields_of.
  rewrite Hm, Hu. destruct targetMap as [m|]; cbn.
  - rewrite range_known_fields. destruct (m !! k); cbn; [|split; [done|]].
    + split; eauto.
    + by intros [? ?].
  - rewrite lookup_empty. cbn. split; [done|]. by intros [? ?].
Qed.

(* the steps of UnmarshalWithExtensions, one lemma for each way out *)
Lemma UnmarshalWithExtensions_target_error data target extensions target' err :
  json_Unmarshal data target = (target', Some err) →
  UnmarshalWithExtensions data target extensions
  = (target', SetRawData data extensions,
     Some (Errorf "failed to unmarshal target" err)).
Proof. intros H. unfold UnmarshalWithExtensions. by rewrite H. Qed.

Lemma UnmarshalWithExtensions_map_error data target extensions target' err :
  json_Unmarshal data target = (target', None) →
  json_UnmarshalMap data = Err err →
  UnmarshalWithExtensions data target extensions
  = (target', SetRawData data extensions,
     Some (Errorf "failed to unmarshal to map" err)).
Proof. intros H1 H2. unfold UnmarshalWithExtensions. by rewrite H1, H2. Qed.

Lemma UnmarshalWithExtensions_ok data target extensions target' allFields :
  json_Unmarshal data target = (target', None) →
  json_UnmarshalMap data = Ok allFields →
  let extensionFields := extension_fields (getKnownFields target') allFields in
  UnmarshalWithExtensions data target extensions
  = (target',
     if (0 <? size extensionFields)%nat then
       {| Extensions := Some extensionFields;
          RawData := copy (make (length data)) data;
          ExtensionRawData :=
            match json_MarshalMap (Some extensionFields) with
            | Ok extensionData => extensionData
            | Err _ => ExtensionRawData extensions
            end |}
     else SetRawData data extensions,
     None).
Proof.
  intros H1 H2 extensionFields. subst extensionFields.
  unfold UnmarshalWithExtensions. rewrite H1, H2.
  fold (extension_fields (getKnownFields target') allFields).
  destruct (0 <? _)%nat; [|done].
  by destruct (json_MarshalMap _).
Qed.

(* every call returns one of the three ways *)
Lemma UnmarshalWithExtensions_cases (data : bytes) (target : T) :
  (∃ target' err, json_Unmarshal data target = (target', Some err))
  ∨ (∃ target' err, json_Unmarshal data target = (target', None)
                    ∧ json_UnmarshalMap data = Err err)
  ∨ (∃ target' allFields, json_Unmarshal data target = (target', None)
                          ∧ json_UnmarshalMap data = Ok allFields).
Proof.
  destruct (json_Unmarshal data target) as [target' [err|]] eqn:H1; [eauto|].
  destruct (json_UnmarshalMap data) as [allFields|err] eqn:H2; eauto 10.
Qed.

(** C7. The input bytes are stored as RawData as the first step: whatever
    the call returns, an error or not, GetRawData on the store gives the
    input back. *)
Theorem C7_raw_data_stored_verbatim (data : bytes) (target : T)
    (extensions : RawExtensions) :
  GetRawData (UnmarshalWithExtensions data target extensions).1.2 = data.
Proof.
  destruct (UnmarshalWithExtensions_cases data target)
    as [(t' & err & H)|[(t' & err & H1 & H2)|(t' & allFields & H1 & H2)]].
  - rewrite (UnmarshalWithExtensions_target_error _ _ _ _ _ H).
    apply copy_make.
  - rewrite (UnmarshalWithExtensions_map_error _ _ _ _ _ H1 H2).
    apply copy_make.
  - rewrite (UnmarshalWithExtensions_ok _ _ _ _ _ H1 H2). cbn [fst snd].
    destruct (0 <? _)%nat; apply copy_make.
Qed.

(** C8. With no extension (a nil or an empty map), MarshalWithExtensions
    returns the bytes of the base serialization as they are. *)
Theorem C8_empty_extensions_fast_path (target : T)
    (extensions : option (gmap string any)) (baseData : bytes) :
  json_Marshal target = Ok baseData →
  size (fields_of extensions) = 0%nat →
  MarshalWithExtensions target extensions = Returns (Ok baseData).
Proof.
  intros Hm Hs. unfold MarshalWithExtensions, fields_of in *.
  by rewrite Hm, Hs.
Qed.

(* MarshalWithExtensions with extensions, on a target whose base bytes are
   an object: json.Marshal is called on the base map with every entry of the
   extension map stored in it *)
Lemma MarshalWithExtensions_merged (target : T) (extensions : gmap string any)
    (baseData : bytes) (baseMap : gmap string any) :
  json_Marshal target = Ok baseData →
  json_UnmarshalMap baseData = Ok (Some baseMap) →
  extensions ≠ ∅ →
  MarshalWithExtensions target (Some extensions)
  = Returns (json_MarshalMap (Some (extensions ∪ baseMap))).
Proof.
  intros Hm Hu Hne. unfold MarshalWithExtensions. rewrite Hm. cbn [default id].
  assert ((size extensions =? 0)%nat = false) as ->.
  { apply Nat.eqb_neq. by intros ?%map_size_empty_iff. }
  rewrite Hu. cbn [range]. by rewrite range_merge.
Qed.



(* the extension map after a decode that returns nil *)
Lemma UnmarshalWithExtensions_extensions (data : bytes) (target : T)
    (extensions : RawExtensions) target' extensions' :
  UnmarshalWithExtensions data target extensions = (target', extensions', None) →
  ∃ allFields,
    json_Unmarshal data target = (target', None)
    ∧ json_UnmarshalMap data = Ok allFields
    ∧ Extensions extensions'
      = if (0 <? size (extension_fields (getKnownFields target') allFields))%nat
        then Some (extension_fields (getKnownFields target') allFields)
        else Extensions extensions.
Proof.
  intros Hu.
  destruct (UnmarshalWithExtensions_cases data target)
    as [(t' & err & H)|[(t' & err & H1 & H2)|(t' & allFields & H1 & H2)]].
  - by rewrite (UnmarshalWithExtensions_target_error _ _ _ _ _ H) in Hu.
  - by rewrite (UnmarshalWithExtensions_map_error _ _ _ _ _ H1 H2) in Hu.
  - rewrite (UnmarshalWithExtensions_ok _ _ _ _ _ H1 H2) in Hu.
    injection Hu as -> <-. exists allFields. do 2 (split; [done|]).
    by destruct (0 <? _)%nat.
Qed.

Lemma extension_fields_empty knownFields allFields :
  (0 <? size (extension_fields knownFields allFields))%nat = false →
  extension_fields knownFields allFields = ∅.
Proof. intros Hs%Nat.ltb_ge. apply map_size_empty_iff. lia. Qed.

(** C3, amended. After a decode that returns nil, into a store whose
    extension map was empty or with a payload that has a key outside the
    known-field set, the extension map holds exactly the payload fields
    whose key is outside the set getKnownFields computes for the populated
    target: no key of it is a known field. *)
Theorem C3_extensions_disjoint_from_known_fields (data : bytes) (target : T)
    (extensions : RawExtensions) target' extensions' :
  UnmarshalWithExtensions data target extensions = (target', extensions', None) →
  (fields_of (Extensions extensions) = ∅
   ∨ ∃ allFields k, json_UnmarshalMap data = Ok allFields
                    ∧ is_Some (fields_of allFields !! k)
                    ∧ known (getKnownFields target') k = false) →
  ∃ allFields,
    json_UnmarshalMap data = Ok allFields
    ∧ ∀ k, fields_of (Extensions extensions') !! k
           = if known (getKnownFields target') k then None
             else fields_of allFields !! k.
Proof.
  intros Hu Hpre.
  destruct (UnmarshalWithExtensions_extensions _ _ _ _ _ Hu)
    as (allFields & H1 & H2 & Hext).
  exists allFields. split; [done|]. intros k. rewrite Hext.
  destruct (0 <? _)%nat eqn:Hs.
  - apply extension_fields_lookup.
  - apply extension_fields_empty in Hs.
    destruct Hpre as [Hpre|(allFields' & k' & H2' & [x Hx] & Hk)].
    + rewrite Hpre, <- Hs. apply extension_fields_lookup.
    + rewrite H2 in H2'. injection H2' as <-.
      pose proof (extension_fields_lookup (getKnownFields target') allFields k') as Hl.
      by rewrite Hs, lookup_empty, Hk, Hx in Hl.
Qed.
End json_go_facts.

(** ** [encoding/json] on Go values: what is written can be read *)

Lemma of_bytes_to_bytes s : of_bytes (to_bytes s) = s.
Proof.
  unfold of_bytes, to_bytes. rewrite map_map.
  induction s as [|c s IH]; [done|]. cbn. by rewrite ascii_of_byte_of_ascii, IH.
Qed.

Lemma parse_to_bytes j : parse (of_bytes (to_bytes (print j))) = Some j.
Proof. rewrite of_bytes_to_bytes. apply JsonFacts.parse_print. Qed.

Lemma UnmarshalMap_object m :
  UnmarshalMap (to_bytes (print (JObj m))) = Ok (Some (decoded_object m)).
Proof. unfold UnmarshalMap. by rewrite parse_to_bytes. Qed.

Lemma MarshalMap_Some (m : gmap string any) data :
  MarshalMap (Some m) = Ok data →
  ∃ es, any_to_json (AObj m) = Ok (JObj es) ∧ data = to_bytes (print (JObj es)).
Proof.
  unfold MarshalMap. destruct (any_to_json (AObj m)) as [j|e] eqn:E; [|done].
  intros [= <-]. destruct (any_to_json_obj _ _ E) as (es & -> & _). eauto.
Qed.

(* a map of values of the kinds a decoder stores is written, and decoded
   from what is written *)
Lemma MarshalMap_ok (m : gmap string any) :
  json_kind (AObj m) = true →
  ∃ data, MarshalMap (Some m) = Ok data ∧ UnmarshalMap data = Ok (Some m).
Proof.
  intros Hk. destruct (json_to_any_to_json _ Hk) as (j & Hj & Hj').
  destruct (any_to_json_obj _ _ Hj) as (es & -> & _).
  exists (to_bytes (print (JObj es))). unfold MarshalMap. rewrite Hj.
  split; [done|]. rewrite UnmarshalMap_object. unfold decoded_object.
  cbn [json_to_any] in Hj'. by injection Hj' as ->.
Qed.

Lemma UnmarshalMap_MarshalMap (m : gmap string any) (data : bytes) :
  json_kind (AObj m) = true →
  MarshalMap (Some m) = Ok data → UnmarshalMap data = Ok (Some m).
Proof.
  intros Hk Hd. destruct (MarshalMap_ok m Hk) as (data' & Hd' & Hu). congruence.
Qed.

(* the map a decoder makes holds values of the kinds it stores *)
Lemma json_kind_decoded_object m : json_kind (AObj (decoded_object m)) = true.
Proof. apply (json_kind_json_to_any (JObj m)). Qed.

Lemma UnmarshalMap_json_kind data (m : gmap string any) :
  UnmarshalMap data = Ok (Some m) → json_kind (AObj m) = true.
Proof.
  unfold UnmarshalMap. destruct (parse (of_bytes data)) as [[| | | | |es]|]; try done.
  intros [= <-]. apply json_kind_decoded_object.
Qed.

Lemma json_kind_union (m1 m2 : gmap string any) :
  json_kind (AObj m1) = true → json_kind (AObj m2) = true →
  json_kind (AObj (m1 ∪ m2)) = true.
Proof.
  rewrite !json_kind_obj. intros H1 H2 k a [Ha|[_ Ha]]%lookup_union_Some_raw; eauto.
Qed.

(* a struct is written as an object *)
Lemma encode_struct fs j : encode (VStruct fs) = Ok j → ∃ m, j = JObj m.
Proof. cbn [encode]. case_match; intros [= <-]; eauto. Qed.

Lemma Marshal_struct fs baseData :
  Marshal (VStruct fs) = Ok baseData →
  ∃ m, encode (VStruct fs) = Ok (JObj m) ∧ baseData = to_bytes (print (JObj m)).
Proof.
  unfold Marshal. destruct (encode (VStruct fs)) as [j|] eqn:He; [|done].
  destruct (encode_struct _ _ He) as [m ->]. intros Hd.
  exists m. split; [done|]. congruence.
Qed.

(** ** The known-field set of a struct *)

Lemma encode_VStruct fs :
  encode (VStruct fs) = match encode_fields fs with
                        | Ok m => Ok (JObj m)
                        | Err e => Err e
                        end.
Proof. reflexivity. Qed.

(* a member of the written object comes from a field that is not left out *)
Lemma encode_fields_keys fs m k :
  encode_fields fs = Ok m → k ∈ m.*1 →
  ∃ o y, (k, o, y) ∈ fs ∧ o && isEmptyValue y = false.
Proof.
  revert m. induction fs as [|[[name o] y] fs IH]; intros m; cbn [encode_fields].
  - intros [= <-]. by intros ?%elem_of_nil.
  - destruct (o && isEmptyValue y) eqn:Ho.
    + intros Hm Hk. destruct (IH _ Hm Hk) as (o' & y' & ? & ?).
      exists o', y'. split; [by right|done].
    + destruct (encode y); [|done].
      destruct (encode_fields fs) as [js|]; [|done].
      intros [= <-]. cbn. intros [->|Hk]%elem_of_cons.
      * exists o, y. split; [by left|done].
      * destruct (IH _ eq_refl Hk) as (o' & y' & ? & ?).
        exists o', y'. split; [by right|done].
Qed.

Lemma NoDup_names_eq {A} (fs : list (string * bool * A)) name o o' (x x' : A) :
  NoDup fs.*1.*1 → (name, o, x) ∈ fs → (name, o', x') ∈ fs → o = o' ∧ x = x'.
Proof.
  assert (∀ (fs : list (string * bool * A)) o x,
            (name, o, x) ∈ fs → name ∈ fs.*1.*1) as Hname.
  { intros fs' o1 x1 H. apply list_elem_of_fmap. exists (name, o1).
    split; [done|]. apply list_elem_of_fmap. by exists (name, o1, x1). }
  induction fs as [|f fs IH]; [by intros _ ?%elem_of_nil|].
  rewrite !fmap_cons, NoDup_cons.
  intros [Hf Hnd] [H1|H1]%elem_of_cons [H2|H2]%elem_of_cons.
  - rewrite <- H1 in H2. by injection H2.
  - subst f. destruct Hf. by eapply Hname.
  - subst f. destruct Hf. by eapply Hname.
  - by apply IH.
Qed.

Lemma decoded_object_dom m k : is_Some (decoded_object m !! k) ↔ k ∈ m.*1.
Proof.
  unfold decoded_object. rewrite dom_object_to_map.
  change (map ?f ?l) with (f <$> l). by rewrite <- list_fmap_compose.
Qed.

(* getKnownFields on a struct: the names of the fields that are written *)
Lemma getKnownFields_struct (t : target) fs k :
  target_value t = VStruct fs →
  known (getKnownFields t) k = true →
  ∃ o y, (k, o, y) ∈ fs ∧ o && isEmptyValue y = false.
Proof.
  intros Ht Hk.
  destruct (json_Marshal t) as [targetBytes|e] eqn:Hm; last first.
  { unfold getKnownFields, known in Hk. by rewrite Hm, lookup_empty in Hk. }
  pose proof Hm as Hm'. cbn in Hm'. rewrite Ht in Hm'.
  destruct (Marshal_struct _ _ Hm') as (m & He & ->).
  rewrite (getKnownFields_spec t _ _ k Hm (UnmarshalMap_object m)) in Hk.
  cbn in Hk. apply decoded_object_dom in Hk.
  rewrite encode_VStruct in He.
  destruct (encode_fields fs) as [m'|] eqn:Hf; [|done].
  injection He as ->. by eapply encode_fields_keys.
Qed.

(** C4. A field with omitempty whose value, after decoding, is the empty
    value of its type is not in the set getKnownFields computes for the
    populated target; a payload that carries that field is decoded with the
    field in the extension map. *)
Theorem C4_empty_omitempty_field_is_an_extension (data : bytes) (t : target)
    (extensions : RawExtensions) t' extensions' fs name x allFields v :
  UnmarshalWithExtensions data t extensions = (t', extensions', None) →
  target_value t' = VStruct fs →
  NoDup fs.*1.*1 →
  (name, true, x) ∈ fs →
  isEmptyValue x = true →
  json_UnmarshalMap data = Ok (Some allFields) →
  allFields !! name = Some v →
  known (getKnownFields t') name = false
  ∧ GetExtension name extensions' = (v, true).
Proof.
  intros Hu Ht Hnd Hin Hemp Hmap Hv.
  assert (known (getKnownFields t') name = false) as Hk.
  { destruct (known (getKnownFields t') name) eqn:Hk; [|done].
    destruct (getKnownFields_struct _ _ _ Ht Hk) as (o & y & Hy & Ho).
    destruct (NoDup_names_eq _ _ _ _ _ _ Hnd Hin Hy) as [<- <-].
    by rewrite Hemp in Ho. }
  split; [done|].
  destruct (UnmarshalWithExtensions_extensions _ _ _ _ _ Hu)
    as (allFields' & _ & Hmap' & Hext).
  rewrite Hmap in Hmap'. injection Hmap' as <-.
  pose proof (extension_fields_lookup (getKnownFields t') (Some allFields) name) as Hl.
  rewrite Hk in Hl. change (fields_of (Some allFields)) with allFields in Hl.
  rewrite Hv in Hl.
  unfold GetExtension. rewrite Hext.
  destruct (0 <? _)%nat eqn:Hs.
  - by rewrite Hl.
  - apply extension_fields_empty in Hs. by rewrite Hs, lookup_empty in Hl.
Qed.

(** ** Decoding what was encoded *)

Lemma gval_ind (P : gval → Prop) :
  (∀ s, P (VString s)) → (∀ z, P (VInt z)) → (∀ b, P (VBool b)) →
  P (VPtr None) → (∀ p, P p → P (VPtr (Some p))) →
  P (VSlice None) → (∀ l, Forall P l → P (VSlice (Some l))) →
  (∀ fs, Forall (λ f, P f.2) fs → P (VStruct fs)) →
  (∀ under r, P under → P (VMarshaler under r)) →
  ∀ v, P v.
Proof.
  intros Hs Hi Hb Hn Hp Hsn Hl Hst Hm.
  fix IH 1. intros [s|z|b|[p|]|[l|]|fs|under r].
  - apply Hs.
  - apply Hi.
  - apply Hb.
  - apply Hp, IH.
  - apply Hn.
  - apply Hl. induction l as [|x l IHl]; constructor; [apply IH|apply IHl].
  - apply Hsn.
  - apply Hst. induction fs as [|f fs IHfs]; constructor; [apply IH|apply IHfs].
  - apply Hm, IH.
Qed.

Lemma encode_VSlice l :
  encode (VSlice (Some l)) = match encode_elements l with
                             | Ok js => Ok (JArr js)
                             | Err e => Err e
                             end.
Proof. reflexivity. Qed.

Lemma decode_ptr j t v :
  j ≠ JNull →
  decode j (TPtr t) v =
  let '(p', e) := decode j t (match v with VPtr (Some p) => p | _ => zero t end) in
  (VPtr (Some p'), e).
Proof. destruct j; done. Qed.

Lemma decode_slice l t v :
  decode (JArr l) (TSlice t) v =
  let '(vs, e) := decode_elements t (match v with VSlice (Some o) => o | _ => [] end) l 0 in
  (VSlice (Some vs), e).
Proof. reflexivity. Qed.

Lemma decode_struct m fts v :
  decode (JObj m) (TStruct fts) v =
  let '(fs', e) := decode_members fts m (match v with VStruct fs => fs | _ => [] end) None in
  (VStruct fs', e).
Proof. reflexivity. Qed.

Lemma find_field_None {A} k (fts : list (string * bool * A)) :
  find_field k fts = None → ∀ ft, ft ∈ fts → ft.1.1 ≠ k.
Proof.
  unfold find_field. destruct (list_find _ fts) as [[i ft']|] eqn:H1; [done|].
  intros _ ft Hft. apply list_find_None in H1.
  by eapply Forall_forall in H1.
Qed.

Lemma NoDup_names_lookup {A} (fts : list (string * bool * A)) i j ft ft' :
  NoDup fts.*1.*1 → fts !! i = Some ft → fts !! j = Some ft' →
  ft.1.1 = ft'.1.1 → i = j.
Proof.
  intros Hnd Hi Hj Heq. eapply NoDup_lookup; [done|..].
  - by rewrite !list_lookup_fmap, Hi.
  - by rewrite !list_lookup_fmap, Hj, Heq.
Qed.

Lemma find_field_exact {A} k (fts : list (string * bool * A)) i o t :
  NoDup fts.*1.*1 → fts !! i = Some (k, o, t) → find_field k fts = Some i.
Proof.
  intros Hnd Hi. unfold find_field.
  destruct (list_find _ fts) as [[j ft']|] eqn:H1.
  - apply list_find_Some in H1 as (Hj & Hk & _).
    f_equal. symmetry. by eapply NoDup_names_lookup.
  - apply list_find_None in H1.
    eapply Forall_forall in H1; [|by eapply list_elem_of_lookup_2]. done.
Qed.

Lemma first_error_None : first_error None None = None.
Proof. reflexivity. Qed.

Lemma filled_lookup fts fvs keys i ft fv :
  fts !! i = Some ft → fvs !! i = Some fv →
  filled fts fvs keys !! i
  = Some (ft.1.1, ft.1.2, if bool_decide (ft.1.1 ∈ keys) then zero ft.2 else fv.2).
Proof. intros Hi Hj. unfold filled. by rewrite lookup_zip_with, Hi; cbn; rewrite Hj. Qed.

Lemma filled_length fts fvs keys :
  length fvs = length fts → length (filled fts fvs keys) = length fts.
Proof. intros H. unfold filled. rewrite length_zip_with. lia. Qed.

(* once every member is decoded, the struct has its values *)
Lemma filled_nil fts fvs :
  Forall2 (λ fv ft, fv.1 = ft.1) fvs fts → filled fts fvs [] = fvs.
Proof.
  unfold filled. induction 1 as [|[[n o] v] [[n' o'] t] fvs fts H _ IH]; [done|].
  cbn in *. injection H as -> ->. by rewrite IH.
Qed.

(* a key that names no field does not count *)
Lemma filled_skip fts fvs k keys :
  (∀ ft, ft ∈ fts → ft.1.1 ≠ k) → filled fts fvs (k :: keys) = filled fts fvs keys.
Proof.
  intros Hk. unfold filled. revert fvs.
  induction fts as [|ft fts IH]; intros [|fv fvs]; try done.
  cbn. rewrite IH by (intros; apply Hk; by right). do 2 f_equal.
  assert (ft.1.1 ≠ k) by (apply Hk; by left).
  destruct (bool_decide_reflect (ft.1.1 ∈ k :: keys)) as [Hin|Hin];
    destruct (bool_decide_reflect (ft.1.1 ∈ keys)) as [Hin'|Hin']; try done.
  - by apply elem_of_cons in Hin as [?|?].
  - destruct Hin. by right.
Qed.

Lemma filled_step fts fvs k keys i o t v :
  NoDup fts.*1.*1 → fts !! i = Some (k, o, t) → fvs !! i = Some (k, o, v) →
  k ∉ keys →
  <[i := (k, o, v)]> (filled fts fvs (k :: keys)) = filled fts fvs keys.
Proof.
  intros Hnd Hi Hv Hk. apply list_eq. intros j.
  destruct (decide (i = j)) as [<-|Hne].
  - rewrite list_lookup_insert_eq; last first.
    { eapply lookup_lt_is_Some_1. rewrite (filled_lookup _ _ _ _ _ _ Hi Hv). eauto. }
    rewrite (filled_lookup _ _ _ _ _ _ Hi Hv). cbn.
    by rewrite bool_decide_false.
  - rewrite list_lookup_insert_ne by done. unfold filled.
    rewrite !lookup_zip_with.
    destruct (fts !! j) as [ft|] eqn:Hj; [|done]. cbn.
    destruct (fvs !! j) as [fv|]; [|done]. cbn. do 3 f_equal.
    assert (ft.1.1 ≠ k) as Hft.
    { intros Heq. apply Hne. by eapply (NoDup_names_lookup fts i j). }
    destruct (bool_decide_reflect (ft.1.1 ∈ k :: keys)) as [Hin|Hin];
      destruct (bool_decide_reflect (ft.1.1 ∈ keys)) as [Hin'|Hin']; try done.
    + by apply elem_of_cons in Hin as [?|?].
    + destruct Hin. by right.
Qed.

(* the members of an object, in any order, fill the struct *)
Lemma decode_members_filled fts fvs :
  NoDup fts.*1.*1 →
  ∀ es, NoDup es.*1 →
    (∀ k x, (k, x) ∈ es →
            match find_field k fts with
            | None => True
            | Some i => ∃ o t v, fts !! i = Some (k, o, t) ∧ fvs !! i = Some (k, o, v)
                                 ∧ decode x t (zero t) = (v, None)
            end) →
    decode_members fts es (filled fts fvs es.*1) None = (filled fts fvs [], None).
Proof.
  intros Hnd es. induction es as [|[k x] es IH]; intros Hes Hdec; [done|].
  cbn [decode_members fmap list_fmap]. cbn in Hes. apply NoDup_cons in Hes as [Hk Hes].
  pose proof (Hdec k x ltac:(by left)) as Hkx.
  assert (∀ k x, (k, x) ∈ es →
            match find_field k fts with
            | None => True
            | Some i => ∃ o t v, fts !! i = Some (k, o, t) ∧ fvs !! i = Some (k, o, v)
                                 ∧ decode x t (zero t) = (v, None)
            end) as Hdec' by (intros; apply Hdec; by right).
  destruct (find_field k fts) as [i|] eqn:Hf.
  - destruct Hkx as (o & t & v & Hi & Hv & Hd). rewrite Hi.
    rewrite (filled_lookup _ _ _ _ _ _ Hi Hv). cbn [fst snd].
    rewrite bool_decide_true by (by left). rewrite Hd, first_error_None.
    rewrite (filled_step _ _ _ _ _ _ _ _ Hnd Hi Hv Hk). by apply IH.
  - rewrite filled_skip by (by apply find_field_None). by apply IH.
Qed.

Lemma encode_fields_elem fs m k j :
  encode_fields fs = Ok m → (k, j) ∈ m →
  ∃ o y, (k, o, y) ∈ fs ∧ o && isEmptyValue y = false ∧ encode y = Ok j.
Proof.
  revert m. induction fs as [|[[name o] y] fs IH]; intros m; cbn [encode_fields].
  - intros [= <-]. by intros ?%elem_of_nil.
  - destruct (o && isEmptyValue y) eqn:Ho.
    + intros Hm Hk. destruct (IH _ Hm Hk) as (o' & y' & ? & ?).
      exists o', y'. split; [by right|done].
    + destruct (encode y) as [j'|] eqn:Hy; [|done].
      destruct (encode_fields fs) as [js|]; [|done].
      intros [= <-]. intros [[= -> ->]|Hk]%elem_of_cons.
      * exists o, y. split; [by left|done].
      * destruct (IH _ eq_refl Hk) as (o' & y' & ? & ?).
        exists o', y'. split; [by right|done].
Qed.

Lemma encode_fields_emitted fs m k o y :
  encode_fields fs = Ok m → (k, o, y) ∈ fs → o && isEmptyValue y = false →
  k ∈ m.*1.
Proof.
  revert m. induction fs as [|[[name o'] y'] fs IH]; intros m; cbn [encode_fields].
  - by intros _ ?%elem_of_nil.
  - intros Hm [[= -> -> ->]|Hin]%elem_of_cons Ho.
    + rewrite Ho in Hm. destruct (encode y'); [|done].
      destruct (encode_fields fs); [|done]. injection Hm as <-. by left.
    + destruct (o' && isEmptyValue y'); [by eapply IH|].
      destruct (encode y'); [|done].
      destruct (encode_fields fs) as [js|]; [|done]. injection Hm as <-.
      right. by eapply IH.
Qed.

Lemma encode_fields_sublist fs m :
  encode_fields fs = Ok m → sublist m.*1 fs.*1.*1.
Proof.
  revert m. induction fs as [|[[name o] y] fs IH]; intros m; cbn [encode_fields].
  - by intros [= <-].
  - destruct (o && isEmptyValue y).
    + intros Hm. cbn. constructor. by apply IH.
    + destruct (encode y); [|done].
      destruct (encode_fields fs) as [js|]; [|done]. intros [= <-].
      cbn. constructor. by apply IH.
Qed.

(* the members of the object MarshalWithExtensions writes: those of the
   extension map, and those of the base object that it does not replace,
   each as it is after the passage through the map *)
Lemma merged_entries (ext : gmap string any) (m es : list (string * json)) :
  NoDup m.*1 →
  any_to_json (AObj (ext ∪ decoded_object m)) = Ok (JObj es) →
  NoDup es.*1
  ∧ (∀ k x, (k, x) ∈ es →
            is_Some (ext !! k)
            ∨ (ext !! k = None ∧ ∃ j, (k, j) ∈ m ∧ x = normal j))
  ∧ (∀ k, k ∈ m.*1 → k ∈ es.*1).
Proof.
  intros Hnd Hes.
  destruct (any_to_json_obj _ _ Hes) as (es' & [= <-] & _ & Hndes & Hin).
  split; [done|]. split.
  - intros k x (a & Ha & Hx)%Hin.
    apply lookup_union_Some_raw in Ha as [Ha|[Hn Ha]]; [by eauto|].
    right. split; [done|].
    apply lookup_object_to_map_Some in Ha.
    change (map ?f m) with (f <$> m) in Ha.
    apply list_elem_of_fmap in Ha as ([k' j] & [= -> ->] & Hj).
    exists j. split; [done|]. cbn in Hx.
    rewrite any_to_json_json_to_any in Hx. congruence.
  - intros k Hk. apply decoded_object_dom in Hk as [a Ha].
    assert (∃ a', (ext ∪ decoded_object m) !! k = Some a') as [a' Ha'].
    { apply lookup_union_is_Some. eauto. }
    destruct (any_to_json a') as [x|e] eqn:Hx.
    + apply list_elem_of_fmap. exists (k, x). split; [done|]. apply Hin. eauto.
    + destruct (any_to_json_obj_err (ext ∪ decoded_object m)) as [e' He'];
        [by eauto 10|]. congruence.
Qed.

Lemma zero_struct fts : zero (TStruct fts) = VStruct (zero_fields fts).
Proof. reflexivity. Qed.

Lemma field_decodes_names fvs fts :
  Forall2 field_decodes fvs fts → fvs.*1 = fts.*1.
Proof.
  induction 1 as [|fv ft fvs fts [H _] _ IH]; [done|]. cbn. by rewrite H, IH.
Qed.

(* the zero value, seen as a struct that is still to be filled *)
Lemma zero_fields_filled fts fvs keys :
  Forall2 field_decodes fvs fts →
  (∀ k o v, (k, o, v) ∈ fvs → o && isEmptyValue v = false → k ∈ keys) →
  zero_fields fts = filled fts fvs keys.
Proof.
  unfold zero_fields, filled.
  induction 1 as [|[[n o] v] [[n' o'] t] fvs fts (Hn & Hz & _) _ IH]; intros Hk; [done|].
  cbn in *. injection Hn as <- <-. rewrite IH by (intros; eapply Hk; [by right|done]).
  f_equal. f_equal. destruct (o && isEmptyValue v) eqn:Ho.
  - rewrite Hz by done. by destruct (bool_decide _).
  - rewrite bool_decide_true; [done|]. eapply Hk; [by left|done].
Qed.

(* decoding the merged object gives the struct back, when no key of the
   extension map goes to a field *)
Lemma decode_members_merged fts fvs m (ext : gmap string any) es :
  NoDup fts.*1.*1 →
  Forall2 field_decodes fvs fts →
  encode_fields fvs = Ok m →
  (∀ k, is_Some (ext !! k) → find_field k fts = None) →
  any_to_json (AObj (ext ∪ decoded_object m)) = Ok (JObj es) →
  decode_members fts es (zero_fields fts) None = (fvs, None).
Proof.
  intros Hnd Hfd Hm Hext Hesj.
  pose proof (field_decodes_names _ _ Hfd) as Hnames.
  assert (NoDup m.*1) as Hndm.
  { eapply sublist_NoDup; [|by apply encode_fields_sublist].
    by rewrite Hnames. }
  destruct (merged_entries ext m es Hndm Hesj) as (Hes & Hin & Hsub).
  rewrite (zero_fields_filled fts fvs es.*1 Hfd); last first.
  { intros k o v Hk Ho. apply Hsub. by eapply encode_fields_emitted. }
  rewrite (decode_members_filled fts fvs Hnd es Hes).
  - rewrite filled_nil; [done|].
    eapply Forall2_impl; [done|]. by intros ?? [? _].
  - intros k x Hkx. destruct (Hin k x Hkx) as [Hk|(Hk & j & Hj & ->)].
    + by rewrite Hext.
    + destruct (encode_fields_elem _ _ _ _ Hm Hj) as (o & v & Hv & Ho & He).
      apply list_elem_of_lookup in Hv as [i Hi].
      destruct (Forall2_lookup_l _ _ _ _ _ Hfd Hi) as ([[n' o'] t] & Hti & Hn & _ & Hd).
      cbn in Hn. injection Hn as <- <-.
      rewrite (find_field_exact _ _ _ _ _ Hnd Hti).
      exists o, t, v. split; [done|]. split; [done|]. by apply Hd.
Qed.

Lemma canonical_slice l t :
  canonical (VSlice (Some l)) (TSlice t) ↔ Forall (λ x, canonical x t) l.
Proof.
  cbn [canonical]. induction l as [|x l IH]; [by split|].
  rewrite Forall_cons, IH. done.
Qed.

Lemma canonical_struct fvs fts :
  canonical (VStruct fvs) (TStruct fts) ↔
  NoDup fts.*1.*1
  ∧ Forall2 (λ fv ft, fv.1 = ft.1 ∧ canonical fv.2 ft.2
                      ∧ (fv.1.2 && isEmptyValue fv.2 = true → fv.2 = zero ft.2))
            fvs fts.
Proof.
  cbn [canonical]. apply and_iff_compat_l. revert fts.
  induction fvs as [|[[n o] x] fvs IH]; intros [|[[n' o'] t] fts].
  - split; [constructor|done].
  - split; [done|by inversion 1].
  - split; [done|by inversion 1].
  - rewrite Forall2_cons, <- IH. cbn. split.
    + intros (-> & -> & ? & ? & ?). done.
    + intros ((Heq & ? & ?) & ?). by injection Heq as -> ->.
Qed.

Lemma normal_leaf j :
  match j with JArr _ | JObj _ => False | _ => True end → normal j = j.
Proof. by destruct j. Qed.

Lemma normal_arr js : normal (JArr js) = JArr (map normal js).
Proof.
  pose proof (any_to_json_json_to_any (JArr js)) as H.
  cbn [json_to_any any_to_json] in H.
  assert (collect (map any_to_json (map json_to_any js)) = Ok (map normal js)) as E.
  { clear H. induction js as [|x js IH]; [done|]. cbn.
    by rewrite any_to_json_json_to_any, IH. }
  rewrite E in H. congruence.
Qed.

Lemma normal_obj m :
  ∃ es, normal (JObj m) = JObj es
        ∧ any_to_json (AObj (∅ ∪ decoded_object m)) = Ok (JObj es).
Proof.
  pose proof (any_to_json_json_to_any (JObj m)) as H.
  destruct (any_to_json_obj _ _ H) as (es & Hes & _).
  exists es. split; [done|]. rewrite (left_id_L ∅ (∪)).
  change (AObj (decoded_object m)) with (json_to_any (JObj m)). congruence.
Qed.

Lemma in_int64_exact z : exact_float64 z → in_int64 z = true.
Proof.
  unfold exact_float64, in_int64. intros [H1 H2].
  apply andb_true_intro. split; [apply Z.leb_le|apply Z.ltb_lt]; lia.
Qed.

Lemma decode_elements_fresh t l js :
  Forall (λ v, ∀ j, encode v = Ok j → decode (normal j) t (zero t) = (v, None)) l →
  encode_elements l = Ok js →
  ∀ i, decode_elements t [] (map normal js) i = (l, None).
Proof.
  intros Hl. revert js. induction Hl as [|x l Hx _ IH]; intros js; cbn [encode_elements].
  - by intros [= <-].
  - destruct (encode x) as [j|] eqn:Hj; [|done].
    destruct (encode_elements l) as [js'|]; [|done]. intros [= <-] i.
    cbn [map decode_elements]. rewrite lookup_nil. cbn [default].
    by rewrite (Hx _ eq_refl), (IH _ eq_refl).
Qed.

(** A canonical value is decoded from what [encode] writes for it, also
    after the members of its objects were sorted by key. *)
Lemma decode_encoded v :
  ∀ t j, canonical v t → encode v = Ok j →
         decode (normal j) t (zero t) = (v, None)
         ∧ (nullable t = false → normal j ≠ JNull).
Proof.
  induction v as [s|z|b| |p IH| |l IH|fvs IH|under r IH] using gval_ind;
    intros t j Hc He; destruct t as [| | |t|t|fts]; try done.
  - injection He as <-. done.
  - injection He as <-. split; [|done]. rewrite normal_leaf by done.
    cbn. by rewrite in_int64_exact.
  - injection He as <-. done.
  - injection He as <-. done.
  - destruct Hc as [Hn Hc]. change (encode (VPtr (Some p))) with (encode p) in He.
    destruct (IH _ _ Hc He) as [Hd Hnn]. split; [|done].
    rewrite decode_ptr by auto. cbn. by rewrite Hd.
  - injection He as <-. done.
  - apply canonical_slice in Hc. rewrite encode_VSlice in He.
    destruct (encode_elements l) as [js|] eqn:Hjs; [|done]. injection He as <-.
    rewrite normal_arr. split; [|done]. rewrite decode_slice. cbn.
    rewrite (decode_elements_fresh t l js); [done| |done].
    apply Forall_forall. intros x Hx j Hj.
    rewrite Forall_forall in IH, Hc.
    by destruct (IH x Hx t j (Hc x Hx) Hj) as [? _].
  - apply canonical_struct in Hc as [Hnd Hc]. rewrite encode_VStruct in He.
    destruct (encode_fields fvs) as [m|] eqn:Hm; [|done]. injection He as <-.
    destruct (normal_obj m) as (es & -> & Hes).
    split; [|done]. rewrite decode_struct, zero_struct.
    rewrite (decode_members_merged fts fvs m ∅ es); [done|done| |done| |done].
    + clear Hm Hnd Hes. revert IH.
      induction Hc as [|fv ft fvs fts (Hn & Hcf & Hz) _ IHc]; intros IH;
        [constructor|].
      apply Forall_cons in IH as [IHf IH].
      constructor; [|by apply IHc]. split; [done|]. split; [done|].
      intros j Hj. by destruct (IHf _ _ Hcf Hj) as [? _].
    + intros k [? Hk]. by rewrite lookup_empty in Hk.
Qed.

Lemma encode_canonical v : ∀ t, canonical v t → ∃ j, encode v = Ok j.
Proof.
  induction v as [s|z|b| |p IH| |l IH|fvs IH|under r IH] using gval_ind;
    intros t Hc; destruct t as [| | |t|t|fts]; try done; try (by eexists).
  - destruct Hc as [_ Hc]. by apply (IH t).
  - apply canonical_slice in Hc. rewrite encode_VSlice.
    assert (∃ js, encode_elements l = Ok js) as [js ->]; [|by eexists].
    induction IH as [|x l Hx _ IHl]; [by eexists|].
    apply Forall_cons in Hc as [Hcx Hc]. cbn [encode_elements].
    destruct (Hx _ Hcx) as [j ->]. destruct (IHl Hc) as [js ->]. by eexists.
  - apply canonical_struct in Hc as [_ Hc]. rewrite encode_VStruct.
    assert (∃ m, encode_fields fvs = Ok m) as [m ->]; [|by eexists].
    revert IH. induction Hc as [|[[n o] x] ft fvs fts (_ & Hcx & _) _ IHc];
      intros IH; [by eexists|].
    apply Forall_cons in IH as [Hx IH]. cbn [encode_fields]. cbn [snd] in *.
    destruct (IHc IH) as [m ->]. destruct (Hx _ Hcx) as [j ->].
    destruct (o && isEmptyValue x); by eexists.
Qed.

Lemma canonical_field_decodes fvs fts :
  canonical (VStruct fvs) (TStruct fts) → Forall2 field_decodes fvs fts.
Proof.
  intros [_ Hc]%canonical_struct.
  eapply Forall2_impl; [done|]. intros fv ft (Hn & Hcf & Hz).
  split; [done|]. split; [done|]. intros j Hj.
  by destruct (decode_encoded _ _ _ Hcf Hj) as [? _].
Qed.

(* MarshalWithExtensions on a struct, with extensions: the merged map is
   written *)
Lemma MarshalWithExtensions_merge (t : target) fs m (ext : gmap string any) :
  target_value t = VStruct fs → encode_fields fs = Ok m → ext ≠ ∅ →
  json_Marshal t = Ok (to_bytes (print (JObj m)))
  ∧ MarshalWithExtensions t (Some ext)
    = Returns (MarshalMap (Some (ext ∪ decoded_object m))).
Proof.
  intros Ht Hm Hext.
  assert (json_Marshal t = Ok (to_bytes (print (JObj m)))) as HM.
  { cbn. rewrite Ht. unfold Marshal. by rewrite encode_VStruct, Hm. }
  split; [done|]. unfold MarshalWithExtensions. rewrite HM. cbn [default id].
  assert (size ext ≠ 0%nat) as Hs%Nat.eqb_neq by (by intros ?%map_size_empty_iff).
  rewrite Hs. change (json_UnmarshalMap ?d) with (UnmarshalMap d).
  rewrite UnmarshalMap_object.
  change (json_MarshalMap ?d) with (MarshalMap d).
  cbn [range]. by rewrite range_merge.
Qed.

(* a struct is decoded from the merged object *)
Lemma Unmarshal_merged (t : target) fts fvs m (ext : gmap string any) data :
  target_type t = TStruct fts → target_value t = VStruct fvs →
  canonical (VStruct fvs) (TStruct fts) →
  encode_fields fvs = Ok m →
  (∀ k, is_Some (ext !! k) → find_field k fts = None) →
  MarshalMap (Some (ext ∪ decoded_object m)) = Ok data →
  Unmarshal data {| target_type := target_type t;
                    target_value := zero (target_type t) |}
  = (t, None).
Proof.
  intros Hty Hv Hc Hm Hext Hd.
  apply MarshalMap_Some in Hd as (es & Hes & ->).
  unfold Unmarshal. rewrite parse_to_bytes. cbn [target_type target_value].
  rewrite Hty, decode_struct, zero_struct.
  rewrite (decode_members_merged fts fvs m ext es);
    [|by apply canonical_struct in Hc as [? _]
     |by apply canonical_field_decodes|done|done|done].
  destruct t as [ty v]. cbn in *. by subst.
Qed.

(* the extension fields found in the merged object are the extension map *)
Lemma extension_fields_merged (t : target) fts fvs m (ext : gmap string any) :
  target_type t = TStruct fts → target_value t = VStruct fvs →
  canonical (VStruct fvs) (TStruct fts) →
  encode_fields fvs = Ok m →
  (∀ k, is_Some (ext !! k) → find_field k fts = None) →
  extension_fields (getKnownFields t) (Some (ext ∪ decoded_object m)) = ext.
Proof.
  intros Hty Hv Hc Hm Hext. apply map_eq. intros k.
  rewrite extension_fields_lookup. change (fields_of (Some ?x)) with x.
  assert (json_Marshal t = Ok (to_bytes (print (JObj m)))) as HM.
  { cbn. rewrite Hv. unfold Marshal. by rewrite encode_VStruct, Hm. }
  pose proof (getKnownFields_spec t _ _ k HM (UnmarshalMap_object m)) as Hk.
  change (fields_of (Some ?x)) with x in Hk.
  destruct (known (getKnownFields t) k) eqn:Hkn.
  - destruct (proj1 Hk eq_refl) as [a Ha].
    assert (k ∈ m.*1) as Hin by (apply decoded_object_dom; eauto).
    apply list_elem_of_fmap in Hin as ([k' j] & -> & Hin). cbn.
    destruct (encode_fields_elem _ _ _ _ Hm Hin) as (o & v & Hfv & _ & _).
    apply list_elem_of_lookup in Hfv as [i Hi].
    apply canonical_field_decodes in Hc as Hfd.
    destruct (Forall2_lookup_l _ _ _ _ _ Hfd Hi) as ([[n' o'] ty] & Hti & Hn & _).
    cbn in Hn. injection Hn as <- <-.
    apply canonical_struct in Hc as [Hnd _].
    pose proof (find_field_exact _ _ _ _ _ Hnd Hti) as Hf.
    destruct (ext !! k') as [b|] eqn:Hb; [|done].
    rewrite Hext in Hf by eauto. done.
  - assert (decoded_object m !! k = None) as Hn.
    { destruct (decoded_object m !! k) eqn:E; [|done].
      assert (false = true) by (apply Hk; eauto). done. }
    rewrite lookup_union, Hn. by destruct (ext !! k).
Qed.

(* the round trip, for the theorems below *)
Lemma round_trip_struct (t : target) fts fvs (ext : gmap string any) :
  target_type t = TStruct fts → target_value t = VStruct fvs →
  canonical (VStruct fvs) (TStruct fts) →
  ext ≠ ∅ →
  json_kind (AObj ext) = true →
  (∀ k, is_Some (ext !! k) → find_field k fts = None) →
  ∃ data,
    MarshalWithExtensions t (Some ext) = Returns (Ok data)
    ∧ ∀ extensions, ∃ extensions',
        UnmarshalWithExtensions data
          {| target_type := target_type t;
             target_value := zero (target_type t) |} extensions
        = (t, extensions', None)
        ∧ Extensions extensions' = Some ext
        ∧ GetRawData extensions' = data.
Proof.
  intros Hty Hv Hc Hne Hkind Hext.
  destruct (encode_canonical _ _ Hc) as [j Hj]. rewrite encode_VStruct in Hj.
  destruct (encode_fields fvs) as [m|] eqn:Hm; [|done]. clear j Hj.
  destruct (MarshalWithExtensions_merge t fvs m ext Hv Hm Hne) as [_ HM].
  destruct (MarshalMap_ok (ext ∪ decoded_object m)) as (data & Hd & HUM).
  { apply json_kind_union; [done|apply json_kind_decoded_object]. }
  exists data. split; [by rewrite HM, Hd|]. intros extensions.
  pose proof (Unmarshal_merged t fts fvs m ext data Hty Hv Hc Hm Hext Hd) as HU.
  pose proof (UnmarshalWithExtensions_ok data _ extensions t _ HU HUM) as Hok.
  cbv zeta in Hok.
  rewrite (extension_fields_merged t fts fvs m ext Hty Hv Hc Hm Hext) in Hok.
  assert ((0 <? size ext)%nat = true) as Hs.
  { apply Nat.ltb_lt. assert (size ext ≠ 0%nat); [|lia].
    by intros ?%map_size_empty_iff. }
  rewrite Hs in Hok. eexists. split; [exact Hok|]. split; [done|].
  cbn. apply copy_make.
Qed.

(** X1. Round trip. A struct whose fields are canonical values made of
    ASCII strings, with ASCII field names, and a non-empty extension map of
    values of the kinds a decoder stores (nil, bools, numbers a float64
    holds exactly, ASCII strings, slices and maps of these, with ASCII keys),
    none of whose keys goes to a field of the struct (in any case of the
    letters), is encoded by MarshalWithExtensions to bytes from which
    UnmarshalWithExtensions, on the zero value of the struct type and on any
    store, gives back the same field values and the same extension map. *)
Theorem round_trip_without_collision (t : target) fts fvs (ext : gmap string any) :
  target_type t = TStruct fts → target_value t = VStruct fvs →
  canonical (VStruct fvs) (TStruct fts) →
  plain_value (VStruct fvs) = true →
  ext ≠ ∅ →
  plain (AObj ext) = true →
  (∀ k, is_Some (ext !! k) → find_field k fts = None) →
  ∃ data,
    MarshalWithExtensions t (Some ext) = Returns (Ok data)
    ∧ ∀ extensions, ∃ extensions',
        UnmarshalWithExtensions data
          {| target_type := target_type t;
             target_value := zero (target_type t) |} extensions
        = (t, extensions', None)
        ∧ Extensions extensions' = Some ext
        ∧ GetRawData extensions' = data.
Proof.
  intros Hty Hv Hc _ Hne Hp Hext.
  by apply (round_trip_struct t fts fvs ext Hty Hv Hc Hne (plain_json_kind _ Hp)).
Qed.

(** ** The theorems on examples *)

Lemma C10_witness :
  GetExtension "b" (set_all [("a"%string, AStr "x")] RawExtensions_zero) = (ANil, false).
Proof.
  apply (C10_extension_store_coherence RawExtensions_zero "b" ANil).
  vm_compute. by intros [[=]|?%elem_of_nil]%elem_of_cons.
Defined.

(* a payload whose bytes do not parse: RawData is stored all the same *)
Example raw_data_on_error :
  let r := UnmarshalWithExtensions (to_bytes (text "{'role':"))
             (example_Delta_alias Delta_zero) RawExtensions_zero in
  r.2 = Some (Errorf "failed to unmarshal target" SyntaxError)
  ∧ GetRawData r.1.2 = to_bytes (text "{'role':").
Proof. vm_compute. done. Qed.

Lemma C8_witness :
  MarshalWithExtensions (example_Delta_alias delta_hi) (Some ∅)
  = Returns (Ok (to_bytes (text "{'content':'hi','role':'user'}"))).
Proof.
  apply (C8_empty_extensions_fast_path (example_Delta_alias delta_hi) (Some ∅)).
  - vm_compute. reflexivity.
  - vm_compute. reflexivity.
Defined.



(* C3 as it is written fails on a store that is not fresh: the payload has
   no extension field, so the map of the store stays, with its key role,
   which is a known field of the decoded target. *)
Lemma C3_counterexample :
  let r := UnmarshalWithExtensions (to_bytes (text "{'role':'user'}"))
             (example_Delta_alias Delta_zero) stale_store in
  r.2 = None
  ∧ known (getKnownFields r.1.1) "role" = true
  ∧ GetExtension "role" r.1.2 = (AStr "x", true).
Proof. vm_compute. done. Qed.

Lemma C3_witness :
  ∃ allFields,
    json_UnmarshalMap (to_bytes (text "{'role':'user','foo':'bar'}")) = Ok allFields
    ∧ ∀ k, fields_of (Some {[ "foo"%string := AStr "bar" ]}) !! k
           = if known (getKnownFields (example_Delta_alias delta_user)) k then None
             else fields_of allFields !! k.
Proof.
  eapply (C3_extensions_disjoint_from_known_fields
            (to_bytes (text "{'role':'user','foo':'bar'}"))
            (example_Delta_alias Delta_zero) stale_store
            (example_Delta_alias delta_user)
            {| Extensions := Some {[ "foo"%string := AStr "bar" ]};
               RawData := to_bytes (text "{'role':'user','foo':'bar'}");
               ExtensionRawData := to_bytes (text "{'foo':'bar'}") |}).
  - vm_compute. reflexivity.
  - right. eexists _, "foo"%string. split; [vm_compute; reflexivity|].
    split; vm_compute; eauto.
Defined.

Lemma C4_witness :
  known (getKnownFields (example_Delta_alias Delta_zero)) "content" = false
  ∧ GetExtension "content"
      (UnmarshalWithExtensions (to_bytes (text "{'content':''}"))
         (example_Delta_alias Delta_zero) RawExtensions_zero).1.2
    = (AStr "", true).
Proof.
  eapply (C4_empty_omitempty_field_is_an_extension
            (to_bytes (text "{'content':''}")) (example_Delta_alias Delta_zero)
            RawExtensions_zero (example_Delta_alias Delta_zero) _ _
            "content" (VString "") {[ "content"%string := AStr "" ]}).
  - vm_compute. reflexivity.
  - reflexivity.
  - eapply (bool_decide_unpack _). vm_compute. exact I.
  - vm_compute. by left.
  - reflexivity.
  - vm_compute. reflexivity.
  - vm_compute. reflexivity.
Defined.



(* the bytes MarshalWithExtensions returns there *)
Example merge_precedence_bytes :
  MarshalWithExtensions (example_Delta_alias delta_hi)
    (Some {[ "content"%string := AStr "zzz" ]})
  = Returns (Ok (to_bytes (text "{'content':'zzz','role':'user'}"))).
Proof. vm_compute. reflexivity. Qed.

(* An extension whose key is the name of a field is written in place of the
   field, and is decoded into the field, not into the extension map. *)
Example extension_shadows_field :
  let r := with_extensions delta_hi
             (SetExtension "content" (AStr "zzz") RawExtensions_zero) in
  let data := to_bytes (text "{'content':'zzz','role':'user'}") in
  example_Delta_MarshalJSON r = Returns (Ok data)
  ∧ Content (example_Delta_UnmarshalJSON data Delta_zero).1 = "zzz"%string
  ∧ Extensions (Delta_RawExtensions (example_Delta_UnmarshalJSON data Delta_zero).1)
    = None.
Proof. split; [|split]; vm_compute; reflexivity. Qed.

Lemma round_trip_witness :
  ∃ data,
    MarshalWithExtensions (example_Delta_alias delta_call)
      (Some {[ "foo"%string := AStr "bar" ]}) = Returns (Ok data)
    ∧ ∀ extensions, ∃ extensions',
        UnmarshalWithExtensions data (example_Delta_alias Delta_zero) extensions
        = (example_Delta_alias delta_call, extensions', None)
        ∧ Extensions extensions' = Some {[ "foo"%string := AStr "bar" ]}
        ∧ GetRawData extensions' = data.
Proof.
  apply (round_trip_without_collision (example_Delta_alias delta_call)
           (match Delta_type example_FunctionCall_type example_ToolCall_type with
            | TStruct fts => fts | _ => [] end)
           (match target_value (example_Delta_alias delta_call) with
            | VStruct fvs => fvs | _ => [] end)).
  - reflexivity.
  - reflexivity.
  - apply canonical_struct. split.
    + eapply (bool_decide_unpack _). vm_compute. exact I.
    + repeat constructor; try (intros [=]);
        try (eapply (bool_decide_unpack _); vm_compute; exact I).
  - vm_compute. reflexivity.
  - intros H. apply (f_equal size) in H. by vm_compute in H.
  - vm_compute. reflexivity.
  - intros k [x [<- _]%lookup_singleton_Some]. vm_compute. reflexivity.
Defined.

(* the same round trip through the methods of the record, with the bytes *)
Example delta_round_trip :
  let r := with_extensions delta_call
             (SetExtension "foo" (AStr "bar") RawExtensions_zero) in
  let data := to_bytes (text "{'content':'hi','foo':'bar','function_call':{'name':'f'},'role':'assistant','tool_calls':[{'function':{'arguments':'{}','name':'test_function'},'id':'call_123','type':'function'}]}") in
  example_Delta_MarshalJSON r = Returns (Ok data)
  ∧ example_Delta_UnmarshalJSON data Delta_zero
    = (with_extensions delta_call
         {| Extensions := Some {[ "foo"%string := AStr "bar" ]};
            RawData := data;
            ExtensionRawData := to_bytes (text "{'foo':'bar'}") |}, None).
Proof. split; vm_compute; reflexivity. Qed.

(** ** More on the extension store *)

Lemma RawExtensions_eq (r r' : RawExtensions) :
  Extensions r = Extensions r' → RawData r = RawData r' →
  ExtensionRawData r = ExtensionRawData r' → r = r'.
Proof. destruct r, r'. cbn. by intros -> -> ->. Qed.

Lemma Extensions_SetExtension k v r :
  Extensions (SetExtension k v r) = Some (<[k := v]> (fields_of (Extensions r))).
Proof.
  unfold SetExtension, fields_of.
  destruct (Extensions r) eqn:E; cbn; by rewrite ?E.
Qed.

Lemma RawData_SetExtension k v r :
  RawData (SetExtension k v r) = RawData r
  ∧ ExtensionRawData (SetExtension k v r) = ExtensionRawData r.
Proof. unfold SetExtension. by destruct (Extensions r). Qed.

(** X2. SetExtension on a key that is already set replaces its value: the
    store is as if only the last call had been made; calls on different keys
    can be made in either order. *)
Theorem SetExtension_last_write_wins (r : RawExtensions) (k k' : string) (v v' : any) :
  SetExtension k v' (SetExtension k v r) = SetExtension k v' r
  ∧ (k ≠ k' →
     SetExtension k v (SetExtension k' v' r) = SetExtension k' v' (SetExtension k v r)).
Proof.
  split; [|intros Hne]; apply RawExtensions_eq;
    rewrite ?Extensions_SetExtension;
    repeat (rewrite ?(proj1 (RawData_SetExtension _ _ _)),
              ?(proj2 (RawData_SetExtension _ _ _))); try done; cbn.
  - by rewrite insert_insert_eq.
  - by rewrite insert_insert_ne.
Qed.

Lemma Extensions_set_all sets r :
  Extensions (set_all sets r)
  = match sets with
    | [] => Extensions r
    | _ => Some (fold_left (λ acc kv, <[kv.1 := kv.2]> acc) sets
                           (fields_of (Extensions r)))
    end.
Proof.
  revert r. induction sets as [|[k v] sets IH]; intros r; [done|].
  cbn [set_all fold_left]. fold (set_all sets (SetExtension k v r)).
  rewrite IH, Extensions_SetExtension. by destruct sets.
Qed.

(** X3. After SetExtension calls on different keys, on a store that was the
    zero value, GetExtensions returns a map with exactly one entry for each
    call, and the call leaves what GetExtension answers as it was. *)
Theorem GetExtensions_after_sets (sets : list (string * any)) :
  NoDup sets.*1 →
  let '(m, r) := GetExtensions (set_all sets RawExtensions_zero) in
  m = list_to_map sets
  ∧ size m = length sets
  ∧ (∀ k v, (k, v) ∈ sets → m !! k = Some v)
  ∧ ∀ k, GetExtension k r = GetExtension k (set_all sets RawExtensions_zero).
Proof.
  intros Hnd. unfold GetExtensions. rewrite Extensions_set_all.
  destruct sets as [|kv sets]; cbn [RawExtensions_zero Extensions].
  - cbn. repeat split; try done. by intros k v ?%elem_of_nil.
  - change (fields_of None) with (∅ : gmap string any).
    fold (object_to_map (kv :: sets)).
    rewrite (object_to_map_perm _ (kv :: sets)) by done.
    split; [done|]. split; [by rewrite map_size_list_to_map|].
    split; [|done]. intros k v Hkv. by apply elem_of_list_to_map_1.
Qed.

(** ** More on json.go, for any target type *)

Section json_go_more.
Context {T : Type} `{!JsonLib T}.

(** X4. When UnmarshalWithExtensions returns an error, the store keeps its
    extension map and its extension bytes; only RawData is written. The
    error wraps the error of json.Unmarshal on the target, or, when the
    target was decoded (and is left as decoded), the error of json.Unmarshal
    into the field map. *)
Theorem UnmarshalWithExtensions_error_keeps_extensions (data : bytes) (target : T)
    (extensions : RawExtensions) target' extensions' err :
  UnmarshalWithExtensions data target extensions = (target', extensions', Some err) →
  extensions' = SetRawData data extensions
  ∧ Extensions extensions' = Extensions extensions
  ∧ ExtensionRawData extensions' = ExtensionRawData extensions
  ∧ ((∃ cause, json_Unmarshal data target = (target', Some cause)
               ∧ err = Errorf "failed to unmarshal target" cause)
     ∨ (∃ cause, json_Unmarshal data target = (target', None)
                 ∧ json_UnmarshalMap data = Err cause
                 ∧ err = Errorf "failed to unmarshal to map" cause)).
Proof.
  intros Hu.
  destruct (UnmarshalWithExtensions_cases data target)
    as [(t' & e & H)|[(t' & e & H1 & H2)|(t' & allFields & H1 & H2)]].
  - rewrite (UnmarshalWithExtensions_target_error _ _ _ _ _ H) in Hu.
    injection Hu as <- <- <-. repeat split; eauto.
  - rewrite (UnmarshalWithExtensions_map_error _ _ _ _ _ H1 H2) in Hu.
    injection Hu as <- <- <-. repeat split; eauto 10.
  - by rewrite (UnmarshalWithExtensions_ok _ _ _ _ _ H1 H2) in Hu.
Qed.

Lemma UnmarshalWithExtensions_keeps_stale_aux (data : bytes) (target : T)
    (extensions : RawExtensions) target' allFields :
  json_Unmarshal data target = (target', None) →
  json_UnmarshalMap data = Ok allFields →
  (∀ k, is_Some (fields_of allFields !! k) →
        known (getKnownFields target') k = true) →
  UnmarshalWithExtensions data target extensions
  = (target', SetRawData data extensions, None).
Proof.
  intros H1 H2 Hknown.
  rewrite (UnmarshalWithExtensions_ok _ _ _ _ _ H1 H2).
  assert (extension_fields (getKnownFields target') allFields = ∅) as ->.
  { apply map_eq. intros k. rewrite extension_fields_lookup, lookup_empty.
    destruct (known (getKnownFields target') k) eqn:Hk; [done|].
    destruct (fields_of allFields !! k) eqn:Hf; [|done].
    rewrite Hknown in Hk by eauto. done. }
  by rewrite map_size_empty.
Qed.

(** X5. A payload all of whose fields are known fields is decoded with nil,
    and the store keeps the extension map and the extension bytes it had
    before the call: they are not cleared. *)
Theorem UnmarshalWithExtensions_keeps_stale_extensions (data : bytes) (target : T)
    (extensions : RawExtensions) target' allFields :
  json_Unmarshal data target = (target', None) →
  json_UnmarshalMap data = Ok allFields →
  (∀ k, is_Some (fields_of allFields !! k) →
        known (getKnownFields target') k = true) →
  UnmarshalWithExtensions data target extensions
  = (target', SetRawData data extensions, None)
  ∧ Extensions (SetRawData data extensions) = Extensions extensions
  ∧ GetExtensionRawData (SetRawData data extensions)
    = GetExtensionRawData extensions.
Proof.
  intros H1 H2 Hknown. split; [|done].
  by apply (UnmarshalWithExtensions_keeps_stale_aux _ _ _ _ allFields).
Qed.

Lemma getKnownFields_marshal_error (target : T) e k :
  json_Marshal target = Err e → known (getKnownFields target) k = false.
Proof.
  intros H. unfold getKnownFields, known. by rewrite H, lookup_empty.
Qed.

(** X6. When json.Marshal fails on the decoded target, getKnownFields is
    empty, and every field of the payload, a field of the schema or not, is
    stored in the extension map. *)
Theorem unserializable_target_makes_all_fields_extensions (data : bytes)
    (target : T) (extensions : RawExtensions) target' allFields e :
  json_Unmarshal data target = (target', None) →
  json_UnmarshalMap data = Ok (Some allFields) →
  allFields ≠ ∅ →
  json_Marshal target' = Err e →
  ∃ extensions',
    UnmarshalWithExtensions data target extensions = (target', extensions', None)
    ∧ Extensions extensions' = Some allFields.
Proof.
  intros H1 H2 Hne He.
  rewrite (UnmarshalWithExtensions_ok _ _ _ _ _ H1 H2).
  assert (extension_fields (getKnownFields target') (Some allFields) = allFields) as ->.
  { apply map_eq. intros k. rewrite extension_fields_lookup.
    by rewrite (getKnownFields_marshal_error _ e). }
  assert ((0 <? size allFields)%nat = true) as ->.
  { apply Nat.ltb_lt. assert (size allFields ≠ 0%nat); [|lia].
    by intros ?%map_size_empty_iff. }
  eauto.
Qed.

(** X7. UnmarshalJSON decodes the data into each target in turn and stops at
    the first target json.Unmarshal fails on: it returns that error as it is,
    the targets before are decoded, the failing one is as json.Unmarshal left
    it, and the targets after are not touched. Without a failure it returns
    nil and every target is decoded. *)
Theorem UnmarshalJSON_stops_at_first_error (data : bytes) (t : list T) :
  let '(t', err) := UnmarshalJSON data t in
  match err with
  | None =>
      Forall (λ v, decode_error data v = None) t ∧ t' = decoded data <$> t
  | Some e =>
      ∃ before v after,
        t = before ++ v :: after
        ∧ Forall (λ v, decode_error data v = None) before
        ∧ decode_error data v = Some e
        ∧ t' = (decoded data <$> before) ++ decoded data v :: after
  end.
Proof.
  induction t as [|v t IH]; [done|]. cbn [UnmarshalJSON].
  unfold decoded, decode_error in *.
  destruct (json_Unmarshal data v) as [v' [e|]] eqn:Hv.
  - exists [], v, t. by rewrite Hv.
  - destruct (UnmarshalJSON data t) as [t' [e|]].
    + destruct IH as (before & w & after & -> & Hb & Hw & ->).
      exists (v :: before), w, after. repeat split; try done.
      * constructor; [by rewrite Hv|done].
      * cbn. by rewrite Hv.
    + destruct IH as [Hall ->]. split.
      * constructor; [by rewrite Hv|done].
      * cbn. by rewrite Hv.
Qed.
End json_go_more.

(** ** More on json.go, with [encoding/json] on Go values *)

(* the extension fields are values of the payload *)
Lemma json_kind_extension_fields knownFields (m : gmap string any) :
  json_kind (AObj m) = true →
  json_kind (AObj (extension_fields knownFields (Some m))) = true.
Proof.
  rewrite !json_kind_obj. intros H k a Ha.
  rewrite extension_fields_lookup in Ha.
  destruct (known knownFields k); [done|]. by eapply H.
Qed.

(** X8. After a decode that returns nil, either the store has the extension
    map and the extension bytes it had before, or the extension map is not
    empty and the extension bytes are a JSON object that decodes to exactly
    that map. *)
Theorem ExtensionRawData_encodes_the_extensions (data : bytes) (t : target)
    (extensions : RawExtensions) t' extensions' :
  UnmarshalWithExtensions data t extensions = (t', extensions', None) →
  (Extensions extensions' = Extensions extensions
   ∧ ExtensionRawData extensions' = ExtensionRawData extensions)
  ∨ (∃ ext, Extensions extensions' = Some ext ∧ ext ≠ ∅
            ∧ json_UnmarshalMap (GetExtensionRawData extensions') = Ok (Some ext)).
Proof.
  intros Hu.
  destruct (UnmarshalWithExtensions_cases data t)
    as [(t0 & e & H)|[(t0 & e & H1 & H2)|(t0 & allFields & H1 & H2)]].
  - by rewrite (UnmarshalWithExtensions_target_error _ _ _ _ _ H) in Hu.
  - by rewrite (UnmarshalWithExtensions_map_error _ _ _ _ _ H1 H2) in Hu.
  - rewrite (UnmarshalWithExtensions_ok _ _ _ _ _ H1 H2) in Hu.
    assert (t0 = t') as -> by congruence.
    match type of Hu with (_, ?e, _) = _ => assert (extensions' = e) as -> by congruence end.
    clear Hu. destruct (0 <? _)%nat eqn:Hs; [right|by left].
    eexists. split; [done|]. split.
    + intros Hemp. rewrite Hemp, map_size_empty in Hs. done.
    + cbn [GetExtensionRawData ExtensionRawData].
      change (json_MarshalMap ?m) with (MarshalMap m).
      destruct (MarshalMap_ok (extension_fields (getKnownFields t') allFields))
        as (d & Hd & Hu); [|by rewrite Hd].
      destruct allFields as [m|]; [|done].
      apply json_kind_extension_fields. by eapply UnmarshalMap_json_kind.
Qed.

Lemma getKnownFields_are_the_written_fields_aux (t : target) fs m (k : string) :
  target_value t = VStruct fs →
  encode_fields fs = Ok m →
  known (getKnownFields t) k = true
  ↔ ∃ o v, (k, o, v) ∈ fs ∧ o && isEmptyValue v = false.
Proof.
  intros Ht Hm.
  assert (json_Marshal t = Ok (to_bytes (print (JObj m)))) as HM.
  { cbn. rewrite Ht. unfold Marshal. by rewrite encode_VStruct, Hm. }
  rewrite (getKnownFields_spec t _ _ k HM (UnmarshalMap_object m)).
  change (fields_of (Some ?x)) with x. rewrite decoded_object_dom. split.
  - intros ([k' j] & -> & Hin)%list_elem_of_fmap.
    destruct (encode_fields_elem _ _ _ _ Hm Hin) as (o & v & ? & ? & _). eauto.
  - intros (o & v & Hin & Ho). by eapply encode_fields_emitted.
Qed.


(** X9. On a struct all of whose fields can be encoded, the known-field set
    is exactly the set of the names of the fields that are written: those
    without omitempty, and those with a value that is not empty. *)
Theorem getKnownFields_are_the_written_fields (t : target) fs m (k : string) :
  target_value t = VStruct fs →
  encode_fields fs = Ok m →
  known (getKnownFields t) k = true
  ↔ ∃ o v, (k, o, v) ∈ fs ∧ o && isEmptyValue v = false.
Proof. apply getKnownFields_are_the_written_fields_aux. Qed.

(** X10. A field that is written (it has no omitempty, or its value is not
    empty) is never an extension: after a decode that returns nil, on a
    store that was the zero value, GetExtension does not find the name of
    such a field, whatever the payload holds for it. *)
Theorem written_field_is_never_an_extension (data : bytes) (t : target)
    t' extensions' fs m (k : string) (o : bool) (v : gval) :
  UnmarshalWithExtensions data t RawExtensions_zero = (t', extensions', None) →
  target_value t' = VStruct fs →
  encode_fields fs = Ok m →
  (k, o, v) ∈ fs →
  o && isEmptyValue v = false →
  GetExtension k extensions' = (ANil, false).
Proof.
  intros Hu Ht Hm Hin Ho.
  assert (known (getKnownFields t') k = true) as Hk.
  { apply (getKnownFields_are_the_written_fields_aux t' fs m k Ht Hm). eauto. }
  destruct (UnmarshalWithExtensions_extensions _ _ _ _ _ Hu)
    as (allFields & _ & _ & Hext).
  unfold GetExtension. rewrite Hext.
  pose proof (extension_fields_lookup (getKnownFields t') allFields k) as Hl.
  rewrite Hk in Hl. destruct (0 <? _)%nat; [by rewrite Hl|done].
Qed.

(** X11. The payload null, on a target that is a struct (or a string, an
    integer or a bool), is decoded with nil: the target and the extensions
    of the store are left as they were, and only RawData is written. *)
Theorem null_payload_changes_nothing (data : bytes) (t : target)
    (extensions : RawExtensions) :
  parse (of_bytes data) = Some JNull →
  nullable (target_type t) = false →
  UnmarshalWithExtensions data t extensions = (t, SetRawData data extensions, None).
Proof.
  intros Hp Hn.
  assert (json_Unmarshal data t = (t, None)) as H1.
  { cbn. unfold Unmarshal. rewrite Hp. destruct t as [ty v]. cbn in *.
    by destruct ty. }
  assert (json_UnmarshalMap data = Ok None) as H2.
  { cbn. unfold UnmarshalMap. by rewrite Hp. }
  by rewrite (UnmarshalWithExtensions_ok _ _ _ _ _ H1 H2).
Qed.

Lemma size_nonempty (ext : gmap string any) : ext ≠ ∅ → (size ext =? 0)%nat = false.
Proof. intros H. apply Nat.eqb_neq. by intros ?%map_size_empty_iff. Qed.

(** X12. MarshalWithExtensions panics when the extension map is not empty
    and the target is written as null, as a nil pointer is: the base bytes
    leave the base map nil, and the first extension is assigned to an entry
    of a nil map. *)
Theorem MarshalWithExtensions_panics_on_null_base (t : target)
    (ext : gmap string any) :
  encode (target_value t) = Ok JNull →
  ext ≠ ∅ →
  MarshalWithExtensions t (Some ext) = Panics "assignment to entry in nil map".
Proof.
  intros He Hne. unfold MarshalWithExtensions. cbn [json_Marshal GoJson].
  unfold Marshal. rewrite He. cbn [default id]. rewrite size_nonempty by done.
  change (json_UnmarshalMap ?d) with (UnmarshalMap d).
  unfold UnmarshalMap. by rewrite parse_to_bytes.
Qed.

(** X13. MarshalWithExtensions returns an error, and no bytes, when the
    extension map is not empty and the target is written as a JSON value
    that is neither an object nor null (a string, a number, a bool, an
    array): the base bytes cannot be decoded into a map. *)
Theorem MarshalWithExtensions_fails_on_non_object_base (t : target)
    (ext : gmap string any) (j : json) :
  encode (target_value t) = Ok j →
  match j with JNull | JObj _ => False | _ => True end →
  ext ≠ ∅ →
  MarshalWithExtensions t (Some ext)
  = Returns (Err (Errorf "failed to unmarshal base data" UnmarshalTypeError)).
Proof.
  intros He Hj Hne. unfold MarshalWithExtensions. cbn [json_Marshal GoJson].
  unfold Marshal. rewrite He. cbn [default id]. rewrite size_nonempty by done.
  change (json_UnmarshalMap ?d) with (UnmarshalMap d).
  unfold UnmarshalMap. rewrite parse_to_bytes. by destruct j.
Qed.

(** X14. With a non-empty extension map of values of the kinds a decoder
    stores (numbers a float64 holds exactly, ASCII strings and keys), on a
    struct of ASCII strings with ASCII field names, MarshalWithExtensions
    returns an object whose members are sorted by key, each key once: the
    keys of the extension map and the names of the written fields, not in
    the order of the declaration of the fields. *)
Theorem MarshalWithExtensions_writes_sorted_keys (t : target) fs m
    (ext : gmap string any) :
  target_value t = VStruct fs →
  encode_fields fs = Ok m →
  plain_value (VStruct fs) = true →
  ext ≠ ∅ →
  plain (AObj ext) = true →
  ∃ data es,
    MarshalWithExtensions t (Some ext) = Returns (Ok data)
    ∧ parse (of_bytes data) = Some (JObj es)
    ∧ Sorted key_le es
    ∧ NoDup es.*1
    ∧ ∀ k, k ∈ es.*1 ↔ is_Some (ext !! k) ∨ k ∈ m.*1.
Proof.
  intros Ht Hm _ Hne Hp.
  destruct (MarshalWithExtensions_merge t fs m ext Ht Hm Hne) as [_ HM].
  destruct (MarshalMap_ok (ext ∪ decoded_object m)) as (data & Hd & _).
  { apply json_kind_union; [by apply plain_json_kind|apply json_kind_decoded_object]. }
  destruct (MarshalMap_Some _ _ Hd) as (es & Hes & ->).
  exists (to_bytes (print (JObj es))), es. rewrite HM, Hd.
  split; [done|]. split; [apply parse_to_bytes|].
  destruct (any_to_json_obj _ _ Hes) as (es' & [= <-] & Hs & Hnd & _).
  split; [done|]. split; [done|]. intros k.
  rewrite (any_to_json_obj_keys _ _ Hes), <- (decoded_object_dom m k).
  apply lookup_union_is_Some.
Qed.

(** ** chat_stream.go: the methods of ChatCompletionStreamChoiceDelta *)

(* without extensions the base bytes are returned *)
Lemma MarshalWithExtensions_fast_path {T : Type} `{!JsonLib T} (target : T)
    (extensions : option (gmap string any)) (baseData : bytes) :
  json_Marshal target = Ok baseData →
  size (fields_of extensions) = 0%nat →
  MarshalWithExtensions target extensions = Returns (Ok baseData).
Proof.
  intros Hm Hs. unfold MarshalWithExtensions, fields_of in *.
  by rewrite Hm, Hs.
Qed.

(* a value without a MarshalJSON of its own is always written *)
Lemma encode_plain_value v : plain_value v = true → ∃ j, encode v = Ok j.
Proof.
  induction v as [s|z|b| |p IH| |l IH|fvs IH|under r IH] using gval_ind;
    intros Hp; try done; try (by eexists).
  - by apply IH.
  - rewrite encode_VSlice. cbn [plain_value] in Hp.
    assert (∃ js, encode_elements l = Ok js) as [js ->]; [|by eexists].
    induction IH as [|x l Hx _ IHl]; [by eexists|].
    cbn [forallb] in Hp. apply andb_prop in Hp as [Hpx Hp].
    cbn [encode_elements]. destruct (Hx Hpx) as [j ->].
    destruct (IHl Hp) as [js ->]. by eexists.
  - rewrite encode_VStruct. cbn [plain_value] in Hp.
    apply andb_prop in Hp as [_ Hp].
    assert (∃ m, encode_fields fvs = Ok m) as [m ->]; [|by eexists].
    induction IH as [|[[n o] x] fvs Hx _ IHf]; [by eexists|].
    cbn [forallb] in Hp. apply andb_prop in Hp as [Hpx Hp].
    apply andb_prop in Hpx as [_ Hpx]. cbn [encode_fields]. cbn [snd] in *.
    destruct (IHf Hp) as [m ->]. destruct (Hx Hpx) as [j ->].
    destruct (o && isEmptyValue x); by eexists.
Qed.

Section Delta_facts.
Variables FunctionCall_type ToolCall_type : gtype.

Lemma Delta_of_alias_alias r extensions r0 :
  Delta_of_alias (Delta_alias FunctionCall_type ToolCall_type r) extensions r0 = with_extensions r extensions.
Proof. reflexivity. Qed.

Lemma Delta_alias_zero :
  Delta_alias FunctionCall_type ToolCall_type Delta_zero
  = {| target_type := target_type (Delta_alias FunctionCall_type ToolCall_type Delta_zero);
       target_value := zero (target_type (Delta_alias FunctionCall_type ToolCall_type Delta_zero)) |}.
Proof. reflexivity. Qed.

(** X15. MarshalJSON of a delta whose fields are ASCII strings and values
    without a MarshalJSON of their own never panics, and never fails on the
    base fields: the base bytes are an object, and the method returns them,
    when there is no extension, or else what json.Marshal returns for the
    base map with the extensions stored in it. *)
Theorem Delta_MarshalJSON_never_panics (r : ChatCompletionStreamChoiceDelta) :
  plain_value (target_value (Delta_alias FunctionCall_type ToolCall_type r)) = true →
  ∃ baseData baseMap,
    json_Marshal (Delta_alias FunctionCall_type ToolCall_type r) = Ok baseData
    ∧ json_UnmarshalMap baseData = Ok (Some baseMap)
    ∧ Delta_MarshalJSON FunctionCall_type ToolCall_type r
      = Returns
          (if (size (fields_of (Extensions (Delta_RawExtensions r))) =? 0)%nat
           then Ok baseData
           else json_MarshalMap
                  (Some (fields_of (Extensions (Delta_RawExtensions r)) ∪ baseMap))).
Proof.
  intros Hp. destruct (encode_plain_value _ Hp) as [j Hj].
  cbn [Delta_alias target_value] in Hj.
  destruct (encode_struct _ _ Hj) as [m ->].
  assert (json_Marshal (Delta_alias FunctionCall_type ToolCall_type r)
          = Ok (to_bytes (print (JObj m)))) as HM.
  { cbn [json_Marshal GoJson Delta_alias target_value]. unfold Marshal. by rewrite Hj. }
  exists (to_bytes (print (JObj m))), (decoded_object m).
  split; [done|]. split; [apply UnmarshalMap_object|]. unfold Delta_MarshalJSON.
  destruct (size (fields_of (Extensions (Delta_RawExtensions r))) =? 0)%nat eqn:Hs.
  - apply Nat.eqb_eq in Hs. by apply MarshalWithExtensions_fast_path.
  - destruct (Extensions (Delta_RawExtensions r)) as [ext|]; [|done].
    apply (MarshalWithExtensions_merged _ _ _ _ HM (UnmarshalMap_object m)).
    intros ->. by vm_compute in Hs.
Qed.

Lemma empty_string s : String.length s = 0%nat → s = ""%string.
Proof. by destruct s. Qed.

Lemma Delta_canonical r :
  canonical (VPtr (FunctionCall r)) (TPtr FunctionCall_type) →
  canonical (VSlice (ToolCalls r)) (TSlice ToolCall_type) →
  ToolCalls r ≠ Some [] →
  canonical (target_value (Delta_alias FunctionCall_type ToolCall_type r)) (Delta_type FunctionCall_type ToolCall_type).
Proof.
  intros Hf Ht Hne. apply canonical_struct. split.
  - eapply (bool_decide_unpack _). vm_compute. exact I.
  - cbn [target_value Delta_alias].
    repeat (apply Forall2_cons; split; [split; [done|split; [done|]]|]);
      [..|constructor]; cbn [fst snd andb isEmptyValue zero].
    + by intros ->%bool_decide_eq_true%empty_string.
    + by intros ->%bool_decide_eq_true%empty_string.
    + by intros ->%bool_decide_eq_true%empty_string.
    + by destruct (FunctionCall r).
    + destruct (ToolCalls r) as [[|]|]; done.
    + by intros ->%bool_decide_eq_true%empty_string.
Qed.

(** X16. Round trip through the methods of a delta. A delta of ASCII
    strings whose function call and tool calls are canonical values (and
    whose tool calls are not an empty slice that is not nil), with a
    non-empty extension map of values of the kinds a decoder stores (numbers
    a float64 holds exactly, ASCII strings and keys), none of whose keys goes
    to a field of the delta, is written by MarshalJSON to bytes from which
    UnmarshalJSON, on a new delta, gives a delta with the same fields and the
    same extension map, and with the bytes as RawData. *)
Theorem Delta_round_trip (r : ChatCompletionStreamChoiceDelta)
    (ext : gmap string any) :
  Extensions (Delta_RawExtensions r) = Some ext →
  ext ≠ ∅ →
  plain (AObj ext) = true →
  (∀ k, is_Some (ext !! k) → find_field k (struct_fields (Delta_type FunctionCall_type ToolCall_type)) = None) →
  plain_value (target_value (Delta_alias FunctionCall_type ToolCall_type r)) = true →
  canonical (VPtr (FunctionCall r)) (TPtr FunctionCall_type) →
  canonical (VSlice (ToolCalls r)) (TSlice ToolCall_type) →
  ToolCalls r ≠ Some [] →
  ∃ data r',
    Delta_MarshalJSON FunctionCall_type ToolCall_type r = Returns (Ok data)
    ∧ Delta_UnmarshalJSON FunctionCall_type ToolCall_type data Delta_zero = (r', None)
    ∧ with_extensions r' RawExtensions_zero = with_extensions r RawExtensions_zero
    ∧ Extensions (Delta_RawExtensions r') = Some ext
    ∧ GetRawData (Delta_RawExtensions r') = data.
Proof.
  intros Hx Hne Hp Hk _ Hf Ht Hnil.
  destruct (round_trip_struct (Delta_alias FunctionCall_type ToolCall_type r)
              (struct_fields (Delta_type FunctionCall_type ToolCall_type)) _ ext eq_refl eq_refl
              (Delta_canonical r Hf Ht Hnil) Hne (plain_json_kind _ Hp) Hk)
    as (data & HM & HU).
  destruct (HU RawExtensions_zero) as (st' & HU' & Hext & Hraw).
  exists data, (with_extensions r st').
  split; [by unfold Delta_MarshalJSON; rewrite Hx|].
  split; [|done].
  unfold Delta_UnmarshalJSON. rewrite Delta_alias_zero.
  change (Delta_RawExtensions Delta_zero) with RawExtensions_zero.
  change (target_type (Delta_alias FunctionCall_type ToolCall_type Delta_zero)) with (target_type (Delta_alias FunctionCall_type ToolCall_type r)).
  by rewrite HU', Delta_of_alias_alias.
Qed.
End Delta_facts.

(** ** Keys that match a field in another case *)

Lemma find_field_folded {A} k (fts : list (string * bool * A)) i name o t :
  find_field k fts = Some i → fts !! i = Some (name, o, t) → k ≠ name →
  ∀ ft, ft ∈ fts → ft.1.1 ≠ k.
Proof.
  unfold find_field. intros Hf Hi Hne.
  destruct (list_find (λ f, f.1.1 = k) fts) as [[j ft']|] eqn:H1.
  - apply list_find_Some in H1 as (Hj & Hk & _). injection Hf as ->.
    rewrite Hi in Hj. injection Hj as <-. by destruct Hne.
  - intros ft Hft. apply list_find_None in H1. by eapply Forall_forall in H1.
Qed.

Lemma zero_fields_lookup fts i name o t :
  fts !! i = Some (name, o, t) → zero_fields fts !! i = Some (name, o, zero t).
Proof. intros H. unfold zero_fields. by rewrite list_lookup_fmap, H. Qed.

Lemma insert_zero_fields_names fts i name o t v :
  fts !! i = Some (name, o, t) →
  (<[i := (name, o, v)]> (zero_fields fts)).*1.*1 = fts.*1.*1.
Proof.
  intros Hi. rewrite !list_fmap_insert. cbn.
  unfold zero_fields. rewrite <- !list_fmap_compose.
  rewrite list_insert_id; [done|]. by rewrite list_lookup_fmap, Hi.
Qed.

(** X17. A payload key that is not the name of a field but matches the name
    of a string field in another case is decoded twice: its value is stored
    in the field, and, as the key itself is not among the known fields, the
    key and its value are also stored in the extension map. The key, the
    value and the field names are ASCII strings, and the field names
    differ. *)
Theorem key_in_another_case_is_field_and_extension
    (fts : list (string * bool * gtype)) (i : nat) (name k s : string) (o : bool)
    (extensions : RawExtensions) :
  fts !! i = Some (name, o, TString) →
  find_field k fts = Some i →
  k ≠ name →
  NoDup fts.*1.*1 →
  forallb (λ f : string * bool * gtype, ascii_string f.1.1) fts = true →
  ascii_string k = true →
  ascii_string s = true →
  ∃ extensions',
    UnmarshalWithExtensions (to_bytes (print (JObj [(k, JStr s)])))
      {| target_type := TStruct fts; target_value := zero (TStruct fts) |}
      extensions
    = ({| target_type := TStruct fts;
          target_value := VStruct (<[i := (name, o, VString s)]> (zero_fields fts)) |},
       extensions', None)
    ∧ GetExtension k extensions' = (AStr s, true).
Proof.
  intros Hi Hf Hne _ _ _ _.
  set (data := to_bytes (print (JObj [(k, JStr s)]))).
  set (t' := {| target_type := TStruct fts;
                target_value := VStruct (<[i := (name, o, VString s)]> (zero_fields fts)) |}).
  assert (json_Unmarshal data {| target_type := TStruct fts;
                                 target_value := zero (TStruct fts) |}
          = (t', None)) as H1.
  { cbn [json_Unmarshal GoJson]. unfold Unmarshal, data.
    rewrite parse_to_bytes. cbn [target_type target_value].
    rewrite decode_struct, zero_struct. cbn [decode_members].
    by rewrite Hf, Hi, (zero_fields_lookup _ _ _ _ _ Hi). }
  assert (json_UnmarshalMap data = Ok (Some {[ k := AStr s ]})) as H2.
  { cbn [json_UnmarshalMap GoJson]. unfold data. rewrite UnmarshalMap_object.
    unfold decoded_object, object_to_map. cbn. by rewrite insert_empty. }
  assert (known (getKnownFields t') k = false) as Hk.
  { destruct (known (getKnownFields t') k) eqn:Hk; [|done].
    destruct (getKnownFields_struct t' _ k eq_refl Hk) as (o' & y & Hin & _).
    assert (k ∈ fts.*1.*1) as Hin'.
    { rewrite <- (insert_zero_fields_names fts i name o TString (VString s) Hi).
      apply list_elem_of_fmap. exists (k, o'). split; [done|].
      apply list_elem_of_fmap. by exists (k, o', y). }
    apply list_elem_of_fmap in Hin' as ([k' o''] & -> & Hin').
    apply list_elem_of_fmap in Hin' as ([[k'' o3] ty] & [= <- <-] & Hin').
    by destruct (find_field_folded _ _ _ _ _ _ Hf Hi Hne _ Hin'). }
  pose proof (UnmarshalWithExtensions_ok data _ extensions t' _ H1 H2) as Hok.
  cbv zeta in Hok.
  assert (extension_fields (getKnownFields t') (Some {[ k := AStr s ]})
          = {[ k := AStr s ]}) as Hext.
  { apply map_eq. intros k'. rewrite extension_fields_lookup.
    change (fields_of (Some ?x)) with x.
    destruct (decide (k' = k)) as [->|Hk'].
    - by rewrite Hk.
    - rewrite lookup_singleton_ne by done. by destruct (known _ k'). }
  rewrite Hext, map_size_singleton in Hok. cbn [Nat.ltb Nat.leb] in Hok.
  eexists. split; [exact Hok|].
  unfold GetExtension. cbn [Extensions]. by rewrite lookup_singleton_eq.
Qed.

(** ** Decoding, then encoding again *)

(** X18. Unknown fields are preserved. A payload of values the model
    follows (numbers a float64 holds exactly, ASCII strings and keys),
    decoded into a struct of ASCII strings on a store that was the zero
    value, and encoded again from the decoded struct and the extension map of
    the store, gives an object that has every field of the payload outside
    the known-field set, with the value of the payload; its other fields are
    the base fields of the struct. *)
Theorem unknown_fields_survive_decode_encode (data : bytes) (t : target)
    t' extensions' fs m (payload : gmap string any) :
  UnmarshalWithExtensions data t RawExtensions_zero = (t', extensions', None) →
  json_UnmarshalMap data = Ok (Some payload) →
  plain (AObj payload) = true →
  target_value t' = VStruct fs →
  plain_value (VStruct fs) = true →
  encode_fields fs = Ok m →
  ∃ out fields,
    MarshalWithExtensions t' (Extensions extensions') = Returns (Ok out)
    ∧ json_UnmarshalMap out = Ok (Some fields)
    ∧ ∀ k, fields !! k
           = if known (getKnownFields t') k then decoded_object m !! k
             else payload !! k.
Proof.
  intros Hu Hp Hplain Ht _ Hm.
  destruct (UnmarshalWithExtensions_extensions _ _ _ _ _ Hu)
    as (allFields & _ & Hp' & Hext).
  rewrite Hp in Hp'. injection Hp' as <-.
  pose proof (extension_fields_lookup (getKnownFields t') (Some payload)) as Hl.
  change (fields_of (Some payload)) with payload in Hl.
  assert (json_Marshal t' = Ok (to_bytes (print (JObj m)))) as HM.
  { cbn. rewrite Ht. unfold Marshal. by rewrite encode_VStruct, Hm. }
  assert (∀ k, known (getKnownFields t') k = false → decoded_object m !! k = None)
    as Hbase.
  { intros k Hk. destruct (decoded_object m !! k) eqn:E; [|done].
    assert (known (getKnownFields t') k = true); [|congruence].
    apply (getKnownFields_spec t' _ _ k HM (UnmarshalMap_object m)).
    change (fields_of (Some ?x)) with x. eauto. }
  rewrite Hext. destruct (0 <? _)%nat eqn:Hs.
  - set (ext := extension_fields (getKnownFields t') (Some payload)) in *.
    assert (ext ≠ ∅) as Hne.
    { intros Hemp. rewrite Hemp, map_size_empty in Hs. done. }
    destruct (MarshalWithExtensions_merge t' fs m ext Ht Hm Hne) as [_ ->].
    destruct (MarshalMap_ok (ext ∪ decoded_object m)) as (out & Hout & Hback).
    { apply json_kind_union; [|apply json_kind_decoded_object].
      apply json_kind_extension_fields. by apply plain_json_kind. }
    exists out, (ext ∪ decoded_object m). rewrite Hout.
    split; [done|]. split; [done|].
    intros k. rewrite lookup_union, Hl.
    destruct (known (getKnownFields t') k) eqn:Hk.
    + by destruct (decoded_object m !! k).
    + rewrite Hbase by done. by destruct (payload !! k).
  - apply extension_fields_empty in Hs.
    exists (to_bytes (print (JObj m))), (decoded_object m).
    split; [by apply MarshalWithExtensions_fast_path|].
    split; [apply UnmarshalMap_object|].
    intros k. destruct (known (getKnownFields t') k) eqn:Hk; [done|].
    rewrite Hbase by done. specialize (Hl k). by rewrite Hs, lookup_empty, Hk in Hl.
Qed.

(** ** The further theorems on examples *)

Lemma SetExtension_last_write_wins_witness :
  SetExtension "a" ANil (SetExtension "b" (AStr "x") RawExtensions_zero)
  = SetExtension "b" (AStr "x") (SetExtension "a" ANil RawExtensions_zero).
Proof.
  by apply (SetExtension_last_write_wins RawExtensions_zero "a" "b" ANil (AStr "x")).
Defined.

Lemma GetExtensions_after_sets_witness :
  let '(m, r) := GetExtensions (set_all test_sets RawExtensions_zero) in
  m = list_to_map test_sets
  ∧ size m = length test_sets
  ∧ (∀ k v, (k, v) ∈ test_sets → m !! k = Some v)
  ∧ ∀ k, GetExtension k r = GetExtension k (set_all test_sets RawExtensions_zero).
Proof.
  apply (GetExtensions_after_sets test_sets).
  eapply (bool_decide_unpack _). vm_compute. exact I.
Defined.

Lemma UnmarshalWithExtensions_error_witness :
  UnmarshalWithExtensions (to_bytes (text "{'role':"))
    (example_Delta_alias Delta_zero) stale_store
  = (example_Delta_alias Delta_zero,
     SetRawData (to_bytes (text "{'role':")) stale_store,
     Some (Errorf "failed to unmarshal target" SyntaxError))
  ∧ Extensions (SetRawData (to_bytes (text "{'role':")) stale_store)
    = Extensions stale_store.
Proof.
  split; [vm_compute; reflexivity|].
  eapply (UnmarshalWithExtensions_error_keeps_extensions
            (to_bytes (text "{'role':")) (example_Delta_alias Delta_zero)
            stale_store (example_Delta_alias Delta_zero)
            (SetRawData (to_bytes (text "{'role':")) stale_store)
            (Errorf "failed to unmarshal target" SyntaxError)).
  vm_compute. reflexivity.
Defined.

Lemma stale_extensions_witness :
  UnmarshalWithExtensions (to_bytes (text "{'role':'user'}"))
    (example_Delta_alias Delta_zero) stale_store
  = (example_Delta_alias delta_user,
     SetRawData (to_bytes (text "{'role':'user'}")) stale_store, None).
Proof.
  eapply (UnmarshalWithExtensions_keeps_stale_extensions
            (to_bytes (text "{'role':'user'}")) (example_Delta_alias Delta_zero)
            stale_store (example_Delta_alias delta_user)
            (Some {[ "role"%string := AStr "user" ]})).
  - vm_compute. reflexivity.
  - vm_compute. reflexivity.
  - intros k [x Hx]. change (fields_of (Some ?m)) with m in Hx.
    apply lookup_singleton_Some in Hx as [<- _]. vm_compute. reflexivity.
Defined.

Lemma unserializable_target_witness :
  ∃ extensions',
    UnmarshalWithExtensions (to_bytes (text "{'a':'x'}")) unserializable_target
      RawExtensions_zero
    = ({| target_type := target_type unserializable_target;
          target_value :=
            VStruct [("a"%string, false, VString "x");
                     ("b"%string, false,
                      VMarshaler (VString "") (Err UnsupportedValueError))] |},
       extensions', None)
    ∧ Extensions extensions' = Some {[ "a"%string := AStr "x" ]}.
Proof.
  eapply (unserializable_target_makes_all_fields_extensions
            (to_bytes (text "{'a':'x'}")) unserializable_target RawExtensions_zero
            _ {[ "a"%string := AStr "x" ]} (MarshalerError UnsupportedValueError)).
  - vm_compute. reflexivity.
  - vm_compute. reflexivity.
  - intros H. apply (f_equal size) in H. by vm_compute in H.
  - vm_compute. reflexivity.
Defined.

Lemma ExtensionRawData_witness :
  let extensions' :=
    {| Extensions := Some foo_bar;
       RawData := to_bytes (text "{'role':'user','foo':'bar'}");
       ExtensionRawData := to_bytes (text "{'foo':'bar'}") |} in
  (Extensions extensions' = Extensions RawExtensions_zero
   ∧ ExtensionRawData extensions' = ExtensionRawData RawExtensions_zero)
  ∨ (∃ ext, Extensions extensions' = Some ext ∧ ext ≠ ∅
            ∧ json_UnmarshalMap (GetExtensionRawData extensions') = Ok (Some ext)).
Proof.
  apply (ExtensionRawData_encodes_the_extensions
           (to_bytes (text "{'role':'user','foo':'bar'}"))
           (example_Delta_alias Delta_zero) RawExtensions_zero
           (example_Delta_alias delta_user)).
  vm_compute. reflexivity.
Defined.

Lemma getKnownFields_witness :
  known (getKnownFields (example_Delta_alias delta_hi)) "role" = true
  ↔ ∃ o v, ("role"%string, o, v)
             ∈ [("content"%string, true, VString "hi");
                ("reasoning_content"%string, true, VString "");
                ("role"%string, true, VString "user");
                ("function_call"%string, true, VPtr None);
                ("tool_calls"%string, true, VSlice None);
                ("refusal"%string, true, VString "")]
           ∧ o && isEmptyValue v = false.
Proof.
  apply (getKnownFields_are_the_written_fields (example_Delta_alias delta_hi) _
           [("content"%string, JStr "hi"); ("role"%string, JStr "user")]).
  - reflexivity.
  - vm_compute. reflexivity.
Defined.

Lemma written_field_witness :
  GetExtension "role"
    {| Extensions := Some foo_bar;
       RawData := to_bytes (text "{'role':'user','foo':'bar'}");
       ExtensionRawData := to_bytes (text "{'foo':'bar'}") |}
  = (ANil, false).
Proof.
  apply (written_field_is_never_an_extension
           (to_bytes (text "{'role':'user','foo':'bar'}"))
           (example_Delta_alias Delta_zero) (example_Delta_alias delta_user) _
           (match target_value (example_Delta_alias delta_user) with
            | VStruct fs => fs | _ => [] end)
           [("role"%string, JStr "user")] "role" true (VString "user")).
  - vm_compute. reflexivity.
  - reflexivity.
  - vm_compute. reflexivity.
  - vm_compute. do 2 right. by left.
  - reflexivity.
Defined.

Lemma null_payload_witness :
  UnmarshalWithExtensions (to_bytes (text " null ")) (example_Delta_alias delta_hi)
    stale_store
  = (example_Delta_alias delta_hi,
     SetRawData (to_bytes (text " null ")) stale_store, None).
Proof.
  apply null_payload_changes_nothing.
  - vm_compute. reflexivity.
  - reflexivity.
Defined.

Lemma panic_witness :
  MarshalWithExtensions nil_pointer_target (Some foo_bar)
  = Panics "assignment to entry in nil map".
Proof.
  apply MarshalWithExtensions_panics_on_null_base.
  - reflexivity.
  - intros H. apply (f_equal size) in H. by vm_compute in H.
Defined.

Lemma non_object_base_witness :
  MarshalWithExtensions string_target (Some foo_bar)
  = Returns (Err (Errorf "failed to unmarshal base data" UnmarshalTypeError)).
Proof.
  apply (MarshalWithExtensions_fails_on_non_object_base string_target foo_bar (JStr "x")).
  - reflexivity.
  - exact I.
  - intros H. apply (f_equal size) in H. by vm_compute in H.
Defined.

Lemma sorted_keys_witness :
  ∃ data es,
    MarshalWithExtensions (example_Delta_alias delta_hi) (Some foo_bar)
    = Returns (Ok data)
    ∧ parse (of_bytes data) = Some (JObj es)
    ∧ Sorted key_le es
    ∧ NoDup es.*1
    ∧ ∀ k, k ∈ es.*1
           ↔ is_Some (foo_bar !! k)
             ∨ k ∈ [("content"%string, JStr "hi"); ("role"%string, JStr "user")].*1.
Proof.
  apply (MarshalWithExtensions_writes_sorted_keys (example_Delta_alias delta_hi)
           (struct_fields_of (target_value (example_Delta_alias delta_hi)))
           [("content"%string, JStr "hi"); ("role"%string, JStr "user")] foo_bar).
  - reflexivity.
  - vm_compute. reflexivity.
  - vm_compute. reflexivity.
  - intros H. apply (f_equal size) in H. by vm_compute in H.
  - vm_compute. reflexivity.
Defined.

(* the bytes written there: foo comes between content and role *)
Example sorted_keys_bytes :
  MarshalWithExtensions (example_Delta_alias delta_hi) (Some foo_bar)
  = Returns (Ok (to_bytes (text "{'content':'hi','foo':'bar','role':'user'}"))).
Proof. vm_compute. reflexivity. Qed.

Lemma Delta_MarshalJSON_witness :
  ∃ baseData baseMap,
    json_Marshal (example_Delta_alias (with_extensions delta_hi stale_store))
    = Ok baseData
    ∧ json_UnmarshalMap baseData = Ok (Some baseMap)
    ∧ example_Delta_MarshalJSON (with_extensions delta_hi stale_store)
      = Returns
          (if (size (fields_of (Extensions stale_store)) =? 0)%nat
           then Ok baseData
           else json_MarshalMap (Some (fields_of (Extensions stale_store) ∪ baseMap))).
Proof.
  apply (Delta_MarshalJSON_never_panics example_FunctionCall_type
           example_ToolCall_type (with_extensions delta_hi stale_store)).
  vm_compute. reflexivity.
Defined.

Lemma Delta_round_trip_witness :
  ∃ data r',
    example_Delta_MarshalJSON
      (with_extensions delta_call (SetExtension "foo" (AStr "bar") RawExtensions_zero))
    = Returns (Ok data)
    ∧ example_Delta_UnmarshalJSON data Delta_zero = (r', None)
    ∧ with_extensions r' RawExtensions_zero
      = with_extensions
          (with_extensions delta_call
             (SetExtension "foo" (AStr "bar") RawExtensions_zero))
          RawExtensions_zero
    ∧ Extensions (Delta_RawExtensions r') = Some foo_bar
    ∧ GetRawData (Delta_RawExtensions r') = data.
Proof.
  apply (Delta_round_trip example_FunctionCall_type example_ToolCall_type
           (with_extensions delta_call
              (SetExtension "foo" (AStr "bar") RawExtensions_zero)) foo_bar).
  - vm_compute. reflexivity.
  - intros H. apply (f_equal size) in H. by vm_compute in H.
  - vm_compute. reflexivity.
  - intros k [x Hx]. unfold foo_bar in Hx.
    apply lookup_singleton_Some in Hx as [<- _]. vm_compute. reflexivity.
  - vm_compute. reflexivity.
  - split; [reflexivity|]. apply canonical_struct. split.
    + eapply (bool_decide_unpack _). vm_compute. exact I.
    + repeat constructor; try (intros [=]).
  - apply canonical_slice. repeat constructor; try (intros [=]);
      try (eapply (bool_decide_unpack _); vm_compute; exact I).
  - done.
Defined.

Lemma key_in_another_case_witness :
  ∃ extensions',
    UnmarshalWithExtensions (to_bytes (print (JObj [("Content"%string, JStr "yo")])))
      {| target_type := TStruct example_Delta_fields;
         target_value := zero (TStruct example_Delta_fields) |}
      RawExtensions_zero
    = ({| target_type := TStruct example_Delta_fields;
          target_value :=
            VStruct (<[0%nat := ("content"%string, true, VString "yo")]>
                       (zero_fields example_Delta_fields)) |},
       extensions', None)
    ∧ GetExtension "Content" extensions' = (AStr "yo", true).
Proof.
  apply (key_in_another_case_is_field_and_extension example_Delta_fields 0
           "content" "Content" "yo" true RawExtensions_zero).
  - reflexivity.
  - vm_compute. reflexivity.
  - done.
  - eapply (bool_decide_unpack _). vm_compute. exact I.
  - vm_compute. reflexivity.
  - vm_compute. reflexivity.
  - vm_compute. reflexivity.
Defined.

Lemma unknown_fields_survive_witness :
  ∃ out fields,
    MarshalWithExtensions (example_Delta_alias delta_hi) (Some foo_bar)
    = Returns (Ok out)
    ∧ json_UnmarshalMap out = Ok (Some fields)
    ∧ ∀ k, fields !! k
           = if known (getKnownFields (example_Delta_alias delta_hi)) k
             then decoded_object
                    [("content"%string, JStr "hi"); ("role"%string, JStr "user")] !! k
             else ({[ "content"%string := AStr "hi"; "role"%string := AStr "user";
                      "foo"%string := AStr "bar" ]} : gmap string any) !! k.
Proof.
  apply (unknown_fields_survive_decode_encode
           (to_bytes (text "{'content':'hi','role':'user','foo':'bar'}"))
           (example_Delta_alias Delta_zero) (example_Delta_alias delta_hi)
           {| Extensions := Some foo_bar;
              RawData := to_bytes (text "{'content':'hi','role':'user','foo':'bar'}");
              ExtensionRawData := to_bytes (text "{'foo':'bar'}") |}
           (struct_fields_of (target_value (example_Delta_alias delta_hi)))).
  - vm_compute. reflexivity.
  - vm_compute. reflexivity.
  - vm_compute. reflexivity.
  - reflexivity.
  - vm_compute. reflexivity.
  - vm_compute. reflexivity.
Defined.

(** ** The round trip without extensions *)

Lemma zero_fields_filled_plain fts fvs keys :
  Forall2 field_decodes_plain fvs fts →
  (∀ k o v, (k, o, v) ∈ fvs → o && isEmptyValue v = false → k ∈ keys) →
  zero_fields fts = filled fts fvs keys.
Proof.
  unfold zero_fields, filled.
  induction 1 as [|[[n o] v] [[n' o'] t] fvs fts (Hn & Hz & _) _ IH]; intros Hk; [done|].
  cbn in *. injection Hn as <- <-. rewrite IH by (intros; eapply Hk; [by right|done]).
  f_equal. f_equal. destruct (o && isEmptyValue v) eqn:Ho.
  - rewrite Hz by done. by destruct (bool_decide _).
  - rewrite bool_decide_true; [done|]. eapply Hk; [by left|done].
Qed.

(* the members of the written object, in the order of the fields, fill the
   struct *)
Lemma decode_members_plain fts fvs m :
  NoDup fts.*1.*1 →
  Forall2 field_decodes_plain fvs fts →
  encode_fields fvs = Ok m →
  decode_members fts m (zero_fields fts) None = (fvs, None).
Proof.
  intros Hnd Hfd Hm.
  assert (fvs.*1 = fts.*1) as Hnames.
  { clear Hm Hnd. induction Hfd as [|fv ft fvs fts [H _] _ IH]; [done|].
    cbn. by rewrite H, IH. }
  assert (NoDup m.*1) as Hndm.
  { eapply sublist_NoDup; [|by apply encode_fields_sublist]. by rewrite Hnames. }
  rewrite (zero_fields_filled_plain fts fvs m.*1 Hfd); last first.
  { intros k o v Hk Ho. by eapply encode_fields_emitted. }
  rewrite (decode_members_filled fts fvs Hnd m Hndm).
  - rewrite filled_nil; [done|]. eapply Forall2_impl; [done|]. by intros ?? [? _].
  - intros k j Hj.
    destruct (encode_fields_elem _ _ _ _ Hm Hj) as (o & v & Hv & Ho & He).
    apply list_elem_of_lookup in Hv as [i Hi].
    destruct (Forall2_lookup_l _ _ _ _ _ Hfd Hi) as ([[n' o'] t] & Hti & Hn & _ & Hd).
    cbn in Hn. injection Hn as <- <-.
    rewrite (find_field_exact _ _ _ _ _ Hnd Hti).
    exists o, t, v. split; [done|]. split; [done|]. by apply Hd.
Qed.

Lemma decode_elements_fresh_plain t l js :
  Forall (λ v, ∀ j, encode v = Ok j → decode j t (zero t) = (v, None)) l →
  encode_elements l = Ok js →
  ∀ i, decode_elements t [] js i = (l, None).
Proof.
  intros Hl. revert js. induction Hl as [|x l Hx _ IH]; intros js; cbn [encode_elements].
  - by intros [= <-].
  - destruct (encode x) as [j|] eqn:Hj; [|done].
    destruct (encode_elements l) as [js'|]; [|done]. intros [= <-] i.
    cbn [decode_elements]. rewrite lookup_nil. cbn [default].
    by rewrite (Hx _ eq_refl), (IH _ eq_refl).
Qed.

(** A canonical value is decoded from what [encode] writes for it. *)
Lemma decode_encoded_plain v :
  ∀ t j, canonical v t → encode v = Ok j →
         decode j t (zero t) = (v, None) ∧ (nullable t = false → j ≠ JNull).
Proof.
  induction v as [s|z|b| |p IH| |l IH|fvs IH|under r IH] using gval_ind;
    intros t j Hc He; destruct t as [| | |t|t|fts]; try done.
  - injection He as <-. done.
  - injection He as <-. split; [|done]. cbn. by rewrite in_int64_exact.
  - injection He as <-. done.
  - injection He as <-. done.
  - destruct Hc as [Hn Hc]. change (encode (VPtr (Some p))) with (encode p) in He.
    destruct (IH _ _ Hc He) as [Hd Hnn]. split; [|done].
    rewrite decode_ptr by auto. cbn. by rewrite Hd.
  - injection He as <-. done.
  - apply canonical_slice in Hc. rewrite encode_VSlice in He.
    destruct (encode_elements l) as [js|] eqn:Hjs; [|done]. injection He as <-.
    split; [|done]. rewrite decode_slice. cbn.
    rewrite (decode_elements_fresh_plain t l js); [done| |done].
    apply Forall_forall. intros x Hx j Hj.
    rewrite Forall_forall in IH, Hc.
    by destruct (IH x Hx t j (Hc x Hx) Hj) as [? _].
  - apply canonical_struct in Hc as [Hnd Hc]. rewrite encode_VStruct in He.
    destruct (encode_fields fvs) as [m|] eqn:Hm; [|done]. injection He as <-.
    split; [|done]. rewrite decode_struct, zero_struct.
    rewrite (decode_members_plain fts fvs m); [done|done| |done].
    clear Hm Hnd. revert IH.
    induction Hc as [|fv ft fvs fts (Hn & Hcf & Hz) _ IHc]; intros IH;
      [constructor|].
    apply Forall_cons in IH as [IHf IH].
    constructor; [|by apply IHc]. split; [done|]. split; [done|].
    intros j Hj. by destruct (IHf _ _ Hcf Hj) as [? _].
Qed.

(** X19. Round trip without extensions. A struct whose fields are canonical
    values made of ASCII strings, with ASCII field names, and no extension
    (a nil or an empty map), is written by MarshalWithExtensions as its base
    bytes; UnmarshalWithExtensions, on the zero value of the struct type,
    gives the struct back from them, and leaves the extension map and the
    extension bytes of the store as they were. *)
Theorem round_trip_without_extensions (t : target) fts fvs
    (ext : option (gmap string any)) :
  target_type t = TStruct fts → target_value t = VStruct fvs →
  canonical (VStruct fvs) (TStruct fts) →
  plain_value (VStruct fvs) = true →
  fields_of ext = ∅ →
  ∃ baseData,
    json_Marshal t = Ok baseData
    ∧ MarshalWithExtensions t ext = Returns (Ok baseData)
    ∧ ∀ extensions,
        UnmarshalWithExtensions baseData
          {| target_type := target_type t;
             target_value := zero (target_type t) |} extensions
        = (t, SetRawData baseData extensions, None).
Proof.
  intros Hty Hv Hc _ Hemp.
  destruct (encode_canonical _ _ Hc) as [j Hj].
  destruct (decode_encoded_plain _ _ _ Hc Hj) as [Hd _].
  rewrite encode_VStruct in Hj.
  destruct (encode_fields fvs) as [m|] eqn:Hm; [|done]. injection Hj as <-.
  assert (json_Marshal t = Ok (to_bytes (print (JObj m)))) as HM.
  { cbn. rewrite Hv. unfold Marshal. by rewrite encode_VStruct, Hm. }
  exists (to_bytes (print (JObj m))). split; [done|]. split.
  { apply MarshalWithExtensions_fast_path; [done|]. by rewrite Hemp. }
  intros extensions.
  assert (json_Unmarshal (to_bytes (print (JObj m)))
            {| target_type := target_type t; target_value := zero (target_type t) |}
          = (t, None)) as H1.
  { cbn [json_Unmarshal GoJson]. unfold Unmarshal. rewrite parse_to_bytes.
    cbn [target_type target_value]. rewrite Hty, Hd.
    destruct t as [ty v]. cbn in *. by subst. }
  apply (UnmarshalWithExtensions_keeps_stale_aux _ _ _ _ _ H1 (UnmarshalMap_object m)).
  intros k Hk. change (fields_of (Some ?x)) with x in Hk.
  by apply (getKnownFields_spec t _ _ k HM (UnmarshalMap_object m)).
Qed.

Lemma round_trip_without_extensions_witness :
  ∃ baseData,
    json_Marshal (example_Delta_alias delta_call) = Ok baseData
    ∧ MarshalWithExtensions (example_Delta_alias delta_call) None
      = Returns (Ok baseData)
    ∧ ∀ extensions,
        UnmarshalWithExtensions baseData (example_Delta_alias Delta_zero) extensions
        = (example_Delta_alias delta_call, SetRawData baseData extensions, None).
Proof.
  apply (round_trip_without_extensions (example_Delta_alias delta_call)
           example_Delta_fields
           (struct_fields_of (target_value (example_Delta_alias delta_call)))
           None).
  - reflexivity.
  - reflexivity.
  - apply canonical_struct. split.
    + eapply (bool_decide_unpack _). vm_compute. exact I.
    + repeat constructor; try (intros [=]);
        try (eapply (bool_decide_unpack _); vm_compute; exact I).
  - vm_compute. reflexivity.
  - reflexivity.
Defined.

(** ** Bytes that the decoder of the record rejects *)

Lemma decode_members_sticky fts es :
  ∀ cur e, (decode_members fts es cur (Some e)).2 = Some e.
Proof.
  induction es as [|[k x] es IH]; intros cur e; [done|].
  cbn [decode_members].
  destruct (find_field k fts) as [i|]; [|apply IH].
  destruct (fts !! i) as [[[n o] t]|]; [|apply IH].
  destruct (cur !! i) as [[[n' o'] fv]|]; [|apply IH].
  destruct (decode x t fv) as [fv' e1]. cbn [first_error]. apply IH.
Qed.

Lemma decode_string_mismatch x fv :
  x ≠ JNull → (∀ s, x ≠ JStr s) → decode x TString fv = (fv, Some UnmarshalTypeError).
Proof. intros H1 H2. destruct x; try done. by destruct (H2 s). Qed.

(* a member that is no string and not null, for a field of type string, makes
   the decoding of the object fail *)
Lemma decode_members_type_error fts es k x i name o :
  (k, x) ∈ es → find_field k fts = Some i →
  fts !! i = Some (name, o, TString) →
  x ≠ JNull → (∀ s, x ≠ JStr s) →
  ∀ cur err, (i < length cur)%nat →
             ∃ e, (decode_members fts es cur err).2 = Some e.
Proof.
  intros Hin Hf Ht Hn Hs.
  induction es as [|[k' x'] es IH]; intros cur err Hlen; [by apply elem_of_nil in Hin|].
  cbn [decode_members].
  apply elem_of_cons in Hin as [[= <- <-]|Hin].
  - rewrite Hf, Ht.
    destruct (lookup_lt_is_Some_2 cur i Hlen) as [[[n' o'] fv] ->].
    rewrite decode_string_mismatch by done.
    destruct err as [e|]; cbn [first_error]; eexists; apply decode_members_sticky.
  - destruct (find_field k' fts) as [i'|]; [|by apply IH].
    destruct (fts !! i') as [[[n1 o1] t1]|]; [|by apply IH].
    destruct (cur !! i') as [[[n2 o2] fv]|]; [|by apply IH].
    destruct (decode x' t1 fv) as [fv' e1]. apply IH; [done|].
    by rewrite length_insert.
Qed.

(** X20. When the extension map holds, under the name of a string field of
    the struct, a value that json.Marshal writes as something else than a
    string or null, the bytes MarshalWithExtensions returns are rejected by
    UnmarshalWithExtensions on the zero value of the same struct type: it
    writes RawData only and returns the error of the decoding of the target,
    wrapped. *)
Theorem shadowing_extension_of_another_type_is_rejected (t : target) fts fvs
    (ext : gmap string any) i name o a j data :
  target_type t = TStruct fts → target_value t = VStruct fvs →
  canonical (VStruct fvs) (TStruct fts) →
  fts !! i = Some (name, o, TString) →
  ext !! name = Some a →
  any_to_json a = Ok j → j ≠ JNull → (∀ s, j ≠ JStr s) →
  MarshalWithExtensions t (Some ext) = Returns (Ok data) →
  ∀ extensions, ∃ t' cause,
    UnmarshalWithExtensions data
      {| target_type := target_type t;
         target_value := zero (target_type t) |} extensions
    = (t', SetRawData data extensions,
       Some (Errorf "failed to unmarshal target" cause)).
Proof.
  intros Hty Hv Hc Hi Ha Hj Hnil Hstr Hdata extensions.
  assert (ext ≠ ∅) as Hne.
  { intros ->. by rewrite lookup_empty in Ha. }
  destruct (encode_canonical _ _ Hc) as [j' Hj']. rewrite encode_VStruct in Hj'.
  destruct (encode_fields fvs) as [m|] eqn:Hm; [|done]. clear j' Hj'.
  destruct (MarshalWithExtensions_merge t fvs m ext Hv Hm Hne) as [_ HM].
  assert (MarshalMap (Some (ext ∪ decoded_object m)) = Ok data) as Hd by congruence.
  apply MarshalMap_Some in Hd as (es & Hes & ->).
  destruct (any_to_json_obj _ _ Hes) as (es' & [= <-] & _ & _ & Hin).
  apply canonical_struct in Hc as [Hnd _].
  assert ((name, j) ∈ es) as Hmem.
  { apply Hin. exists a. split; [|done]. by apply lookup_union_Some_l. }
  destruct (decode_members_type_error fts es name j i name o Hmem
              (find_field_exact _ _ _ _ _ Hnd Hi) Hi Hnil Hstr)
    with (cur := zero_fields fts) (err := @None error) as [e He].
  { unfold zero_fields. rewrite length_map. by eapply lookup_lt_Some. }
  destruct (decode_members fts es (zero_fields fts) None) as [fs' e'] eqn:Hdec.
  cbn in He. subst e'.
  eexists _, e. apply UnmarshalWithExtensions_target_error.
  cbn [json_Unmarshal GoJson]. unfold Unmarshal. rewrite parse_to_bytes.
  cbn [target_type target_value]. rewrite Hty, decode_struct, zero_struct.
  by rewrite Hdec.
Qed.

Lemma shadowing_extension_witness :
  ∃ t' cause,
    UnmarshalWithExtensions (to_bytes (text "{'content':5,'role':'user'}"))
      (example_Delta_alias Delta_zero) stale_store
    = (t', SetRawData (to_bytes (text "{'content':5,'role':'user'}")) stale_store,
       Some (Errorf "failed to unmarshal target" cause)).
Proof.
  refine (shadowing_extension_of_another_type_is_rejected
            (example_Delta_alias delta_hi) example_Delta_fields
            (struct_fields_of (target_value (example_Delta_alias delta_hi)))
            {[ "content"%string := AValue (VInt 5) ]} 0%nat "content"%string true
            (AValue (VInt 5)) (JNum 5)
            (to_bytes (text "{'content':5,'role':'user'}"))
            _ _ _ _ _ _ _ _ _ stale_store).
  - reflexivity.
  - reflexivity.
  - apply canonical_struct. split.
    + eapply (bool_decide_unpack _). vm_compute. exact I.
    + repeat constructor; try (intros [=]);
        try (eapply (bool_decide_unpack _); vm_compute; exact I).
  - reflexivity.
  - apply lookup_singleton_eq.
  - reflexivity.
  - discriminate.
  - discriminate.
  - vm_compute. reflexivity.
Defined.

(* the bytes of such a record, and the error of its decoder on them *)
Example shadowing_extension_bytes :
  let r := with_extensions delta_hi
             (SetExtension "content" (AValue (VInt 5)) RawExtensions_zero) in
  let data := to_bytes (text "{'content':5,'role':'user'}") in
  example_Delta_MarshalJSON r = Returns (Ok data)
  ∧ (example_Delta_UnmarshalJSON data Delta_zero).2
    = Some (Errorf "failed to unmarshal target" UnmarshalTypeError).
Proof. split; vm_compute; reflexivity. Qed.

(** ** An extension that cannot be written *)

(** X21. When a value of the extension map cannot be written by json.Marshal
    (a value whose MarshalJSON returns an error), MarshalWithExtensions on a
    struct (of ASCII strings, with ASCII field names that differ) returns an
    error and no bytes: the error of json.Marshal on the merged map, not
    wrapped. *)
Theorem MarshalWithExtensions_fails_on_unwritable_extension (t : target) fs m
    (ext : gmap string any) (k : string) (a : any) (e : error) :
  target_value t = VStruct fs →
  plain_value (VStruct fs) = true →
  encode_fields fs = Ok m →
  ext !! k = Some a →
  any_to_json a = Err e →
  ∃ e', MarshalWithExtensions t (Some ext) = Returns (Err e')
        ∧ json_MarshalMap (Some (ext ∪ decoded_object m)) = Err e'.
Proof.
  intros Ht _ Hm Hk He.
  assert (ext ≠ ∅) as Hne. { intros ->. by rewrite lookup_empty in Hk. }
  destruct (MarshalWithExtensions_merge t fs m ext Ht Hm Hne) as [_ ->].
  destruct (any_to_json_obj_err (ext ∪ decoded_object m)) as [e' He'].
  { exists k, a, e. split; [|done]. by apply lookup_union_Some_l. }
  exists e'. cbn [json_MarshalMap GoJson]. unfold MarshalMap. by rewrite He'.
Qed.

Lemma unwritable_extension_witness :
  ∃ e', MarshalWithExtensions (example_Delta_alias delta_hi)
          (Some {[ "foo"%string := failing_value ]}) = Returns (Err e')
        ∧ json_MarshalMap
            (Some ({[ "foo"%string := failing_value ]}
                   ∪ decoded_object
                       [("content"%string, JStr "hi"); ("role"%string, JStr "user")]))
          = Err e'.
Proof.
  apply (MarshalWithExtensions_fails_on_unwritable_extension
           (example_Delta_alias delta_hi)
           (struct_fields_of (target_value (example_Delta_alias delta_hi)))
           [("content"%string, JStr "hi"); ("role"%string, JStr "user")]
           {[ "foo"%string := failing_value ]} "foo" failing_value
           (MarshalerError UnsupportedValueError)).
  - reflexivity.
  - vm_compute. reflexivity.
  - vm_compute. reflexivity.
  - apply lookup_singleton_eq.
  - reflexivity.
Defined.
